(** * movingpandas: overlay engine and stop detector

  A shallow embedding of [movingpandas/overlay.py] and
  [movingpandas/trajectory_stop_detector.py], and the properties of the
  range dissolution, the time interpolation, the clipping pipeline and the
  stop detector that the specification states about them.

  Conventions of the embedding:
  - in the pipelines a timestamp is a naive instant on a whole microsecond,
    its number of microseconds since the epoch, and a [timedelta] is a
    number of microseconds ([datetime]'s resolution); [is_equal] is also
    given in full, on [datetime] and [pd.Timestamp] values, naive or aware
    ([Stamps.is_equal]), and agrees with the one of the pipelines on naive
    values on whole microseconds;
  - a coordinate is a double, kept as the rational number it is exactly; a
    point is a pair of coordinates; the one operation on coordinates that
    the two files do themselves, [translate], rounds as doubles do;
  - a pandas table lives in a store and is reached through a reference, so
    that [df = traj.df] aliases the trajectory's table; its columns are kept
    by name, their order left out;
  - shapely and the methods of [Trajectory], which the two files only call,
    are parameters of the sections that use them. *)

From Stdlib Require Import ZArith QArith Qabs Qround Lia Sorted.
From Stdlib Require SpecFloat.
From stdpp Require Import base option list strings gmap fin_maps pretty.

Local Open Scope Z_scope.

(** ** Python exceptions and results *)

Inductive exn : Type :=
  | ValueError
  | TypeError
  | KeyError
  | AttributeError
  | IndexError
  | ZeroDivisionError
  | NoObject.

(** What a call does: it returns a value or raises. *)
Inductive result (A : Type) : Type :=
  | Ok (a : A)
  | Raise (e : exn).

Arguments Ok {A} a.
Arguments Raise {A} e.

(** ** Time *)

Module Time.

(** Microseconds since the epoch. *)
Definition timestamp := Z.

(** [datetime.timedelta], in microseconds. *)
Definition timedelta := Z.

(** [timedelta(milliseconds=ms)] *)
Definition timedelta_milliseconds (ms : Z) : timedelta := ms * 1000.

(** [timedelta(seconds=s)] *)
Definition timedelta_seconds (s : Z) : timedelta := s * 1000000.

(** [is_equal(t1, t2)] on naive values on whole microseconds, as the
    pipelines hold them.  There both branches of the source compute the
    absolute difference of the two instants, whatever the types of [t1] and
    [t2]; the function in full is [Stamps.is_equal] below, and lemma
    [is_equal_on_whole_microseconds] relates the two. *)
Definition is_equal (t1 t2 : timestamp) : bool :=
  let td := Z.abs (t1 - t2) in
  td <? timedelta_milliseconds 10.

End Time.

Import Time.

(** ** Time values in full *)

Module Stamps.

(** The time zone of an aware value: its offset from UTC, in nanoseconds
    (zones of a fixed offset). *)
Definition tzinfo : Type := Z.

(** A time value as [is_equal] may receive it: a [datetime.datetime], with
    its wall clock in whole microseconds, or a [pd.Timestamp], with its wall
    clock in whole nanoseconds; each one naive ([None]) or aware. *)
Inductive stamp : Type :=
  | Datetime (us : Z) (tz : option tzinfo)
  | Timestamp (ns : Z) (tz : option tzinfo).

(** The wall clock of a value, in nanoseconds. *)
Definition wall_ns (t : stamp) : Z :=
  match t with
  | Datetime us _ => us * 1000
  | Timestamp ns _ => ns
  end.

(** [t.tzinfo] *)
Definition tzinfo_of (t : stamp) : option tzinfo :=
  match t with
  | Datetime _ tz => tz
  | Timestamp _ tz => tz
  end.

(** [ts.tz_localize(tz)] on a [pd.Timestamp]: a naive value is given the
    zone, an aware one gives its zone up when [tz] is [None], the wall clock
    being kept either way; an aware value cannot be localized again. *)
Definition tz_localize (ns : Z) (tz_ts tz : option tzinfo)
  : result (Z * option tzinfo) :=
  match tz_ts, tz with
  | Some _, Some _ => Raise TypeError
  | _, _ => Ok (ns, tz)
  end.

(** [ts.to_pydatetime()]: a [datetime] in microseconds, the nanoseconds
    below the microsecond dropped. *)
Definition to_pydatetime (ns : Z) : Z := ns / 1000.

(** [t1 - t2], in nanoseconds: between two naive values the difference of
    the wall clocks, between two aware ones the difference of the instants;
    a naive and an aware value cannot be subtracted. *)
Definition sub (wall1 : Z) (tz1 : option tzinfo) (wall2 : Z) (tz2 : option tzinfo)
  : result Z :=
  match tz1, tz2 with
  | None, None => Ok (wall1 - wall2)
  | Some o1, Some o2 => Ok ((wall1 - o1) - (wall2 - o2))
  | _, _ => Raise TypeError
  end.

(** [timedelta(milliseconds=10)], in nanoseconds. *)
Definition ten_milliseconds : Z := 10 * 1000000.

(** [is_equal(t1, t2)] *)
Definition is_equal (t1 t2 : stamp) : result bool :=
  match t2 with
  | Timestamp ns tz2 =>
      match tz_localize ns tz2 (tzinfo_of t1) with
      | Ok (ns, tz2) =>
          let us := to_pydatetime ns in
          match sub (wall_ns t1) (tzinfo_of t1) (us * 1000) tz2 with
          | Ok td => Ok (Z.abs td <? ten_milliseconds)
          | Raise e => Raise e
          end
      | Raise e => Raise e
      end
  | Datetime us tz2 =>
      match sub (wall_ns t1) (tzinfo_of t1) (us * 1000) tz2 with
      | Ok td => Ok (Z.abs td <? ten_milliseconds)
      | Raise e => Raise e
      end
  end.



End Stamps.

(** ** Geometry values *)

(** Doubles (IEEE 754 binary64), through the rational numbers they are
    exactly; the arithmetic is that of [SpecFloat]. *)
Module Double.

Definition prec : Z := 53.
Definition emax : Z := 1024.

(** The double of an integer. *)
Definition of_Z (z : Z) : SpecFloat.spec_float :=
  SpecFloat.binary_normalize prec emax z 0 false.

(** The double of a rational number: the quotient of the doubles of its
    numerator and denominator, rounded once.  A rational that is a double is
    kept as it is, and a decimal numeral of at most fifteen digits gives the
    double that Python reads it as. *)
Definition of_Q (q : Q) : SpecFloat.spec_float :=
  SpecFloat.SFdiv prec emax (of_Z (Qnum q)) (of_Z (Zpos (Qden q))).

(** The rational number a finite double is (0 for an infinity or a NaN,
    which the coordinates at hand do not reach). *)
Definition to_Q (x : SpecFloat.spec_float) : Q :=
  match x with
  | SpecFloat.S754_finite s m e =>
      (inject_Z (SpecFloat.cond_Zopp s (Zpos m)) * Qpower 2 e)%Q
  | _ => 0%Q
  end.

(** The double a decimal numeral denotes. *)
Definition literal (q : Q) : Q := to_Q (of_Q q).

(** [a + b] on doubles. *)
Definition add (a b : Q) : Q := to_Q (SpecFloat.SFadd prec emax (of_Q a) (of_Q b)).

End Double.

(** [a < b] on the rationals that stand for floats. *)
Definition Qltb (a b : Q) : bool := negb (Qle_bool b a).

Definition Point : Type := (Q * Q)%type.

(** [p == q] on points: the coordinates are equal. *)
Definition point_eqb (p q : Point) : bool :=
  Qeq_bool (fst p) (fst q) && Qeq_bool (snd p) (snd q).

(** [shapely.affinity.translate(p, xoff, yoff)] on a point: each offset is
    added to its coordinate, in doubles. *)
Definition translate (p : Point) (xoff yoff : Q) : Point :=
  (Double.add (fst p) xoff, Double.add (snd p) yoff).

Definition LineString : Type := list Point.

Definition origin : Point := (0%Q, 0%Q).

(** ** Ranges ([time_range_utils]) *)

(** [TemporalRange(t_0, t_n)] *)
Record TemporalRange : Type := mkTemporalRange {
  range_t_0 : timestamp;
  range_t_n : timestamp
}.

(** [TemporalRangeWithTrajId(t_0, t_n, traj_id)] *)
Record TemporalRangeWithTrajId : Type := mkTemporalRangeWithTrajId {
  stop_t_0 : timestamp;
  stop_t_n : timestamp;
  stop_traj_id : string
}.

(** [SpatioTemporalRange(pt_0, pt_n, t_0, t_n)] *)
Record SpatioTemporalRange : Type := mkSpatioTemporalRange {
  pt_0 : Point;
  pt_n : Point;
  t_0 : timestamp;
  t_n : timestamp
}.

(** ** Spatiotemporal interpolation *)

(** What [possible_matches.intersection(polygon)] yields for one line: a
    [LineString] with its coordinates, or a geometry of another type (empty,
    a point, several parts). *)
Inductive Geometry : Type :=
  | GLineString (coords : list Point)
  | GPoint (p : Point)
  | GOther.

(** A row of the line table: the fields [_get_spatiotemporal_ref] reads. *)
Record LineRow : Type := mkLineRow {
  row_spatial_intersection : Geometry;
  row_prev_t : timestamp;
  row_t : timestamp;
  row_line : LineString
}.

(** The offset of the zero-length guard, the double [0.00000001]. *)
Definition tiny_offset : Q := Double.literal 0.00000001%Q.


Module Interpolation.

Section Ref.

(** shapely's [line.project(point)] and [line.length]. *)
Variable project : LineString -> Point -> Q.
Variable length : LineString -> Q.

(** [t_delta * d / length], cut to whole microseconds as the
    reconstruction of the [datetime] does: the value in exact arithmetic. *)
Definition scale (t_delta : timedelta) (d len : Q) : timedelta :=
  Qfloor (inject_Z t_delta * d / len)%Q.

Definition _get_spatiotemporal_ref (row : LineRow)
  : result (option SpatioTemporalRange) :=
  match row_spatial_intersection row with
  | GLineString coords =>
      match head coords, last coords with
      | Some pt0, Some ptn =>
          let t := row_prev_t row in
          let t_delta := row_t row - t in
          let len := length (row_line row) in
          if Qeq_bool len 0 then Raise ZeroDivisionError
          else
            let t0 := t + scale t_delta (project (row_line row) pt0) len in
            let tn := t + scale t_delta (project (row_line row) ptn) len in
            let '(t0, tn) :=
              if point_eqb ptn (translate pt0 tiny_offset tiny_offset)
              then (row_prev_t row, row_t row)
              else (t0, tn) in
            let tn := if is_equal tn (row_t row) then row_t row else tn in
            let t0 := if is_equal t0 (row_prev_t row) then row_prev_t row else t0 in
            Ok (Some (mkSpatioTemporalRange pt0 ptn t0 tn))
      | _, _ => Raise IndexError
      end
  | _ => Ok None
  end.

End Ref.

End Interpolation.

(** ** A geometry engine for movement along one west-east line

    The instance the examples run on: lines are two-point lines going
    east, a region is the band of the points with [x] between two bounds.
    Distances are measured along the x axis: on a line of constant [y] they
    are shapely's, and on any other straight line going east they are
    proportional to shapely's, so that [project / length], all that the
    interpolation reads, is the same. *)

Module WestEast.

Definition Band : Type := (Q * Q)%type.

Definition Qmin' (a b : Q) : Q := if Qle_bool a b then a else b.
Definition Qmax' (a b : Q) : Q := if Qle_bool a b then b else a.

Definition x_first (l : LineString) : Q := default 0%Q (fst <$> head l).
Definition x_last (l : LineString) : Q := default 0%Q (fst <$> last l).

(** [line.length] *)
Definition length (l : LineString) : Q := (x_last l - x_first l)%Q.

(** [line.project(p)]: the distance along the line of the point of the line
    nearest to [p]. *)
Definition project (l : LineString) (p : Point) : Q :=
  (Qmin' (Qmax' (fst p) (x_first l)) (x_last l) - x_first l)%Q.

(** [point.intersects(band)] *)
Definition point_intersects (p : Point) (b : Band) : bool :=
  Qle_bool (fst b) (fst p) && Qle_bool (fst p) (snd b).

(** [line.intersects(band)] *)
Definition line_intersects (l : LineString) (b : Band) : bool :=
  Qle_bool (fst b) (x_last l) && Qle_bool (x_first l) (snd b).

(** [line.intersection(band)] *)
Definition intersection (l : LineString) (b : Band) : Geometry :=
  let y := default 0%Q (snd <$> head l) in
  let lo := Qmax' (x_first l) (fst b) in
  let hi := Qmin' (x_last l) (snd b) in
  if Qltb lo hi then GLineString [(lo, y); (hi, y)]
  else if Qeq_bool lo hi then GPoint (lo, y)
  else GOther.

(** Sample rows: the line from (0,0) at 0 s to (10,0) at 10 s, with an
    intersection in the middle of it whose two endpoints coincide exactly
    at [x = 5], or lie 5e-9 apart, or lie apart by the offset of the guard
    along both axes. *)
Definition sample_line : LineString := [(0%Q, 0%Q); (10%Q, 0%Q)].


Definition sample_row_sliver : LineRow :=
  {| row_spatial_intersection :=
       GLineString [(5%Q, 0%Q); (Double.literal 5.000000005%Q, 0%Q)];
     row_prev_t := 0;
     row_t := timedelta_seconds 10;
     row_line := sample_line |}.


End WestEast.

(** ** Range dissolution *)

Module Dissolve.

(** The loop state: [dissolved_ranges] and [new_range]. *)
Definition state : Type :=
  (list (option SpatioTemporalRange) * option SpatioTemporalRange)%type.

(** The test of the [elif]: the open range touches [r]. *)
Definition touches (new_range r : SpatioTemporalRange) : bool :=
  (t_n new_range =? t_0 r)
  || ((t_0 r >? t_n new_range) && is_equal (t_0 r) (t_n new_range)).

(** [new_range.t_n = r.t_n; new_range.pt_n = r.pt_n] *)
Definition extend (new_range r : SpatioTemporalRange) : SpatioTemporalRange :=
  {| pt_0 := pt_0 new_range; pt_n := pt_n r;
     t_0 := t_0 new_range; t_n := t_n r |}.

(** One iteration of [for r in ranges]. *)
Definition step (st : state) (r : option SpatioTemporalRange) : state :=
  let '(dissolved_ranges, new_range) := st in
  match r with
  | None => st
  | Some r =>
      match new_range with
      | None =>
          (dissolved_ranges,
           Some (mkSpatioTemporalRange (pt_0 r) (pt_n r) (t_0 r) (t_n r)))
      | Some nr =>
          if touches nr r
          then (dissolved_ranges, Some (extend nr r))
          else (dissolved_ranges ++ [Some nr],
                Some (mkSpatioTemporalRange (pt_0 r) (pt_n r) (t_0 r) (t_n r)))
      end
  end.

Definition _dissolve_ranges (ranges : list (option SpatioTemporalRange))
  : result (list (option SpatioTemporalRange)) :=
  if (Z.of_nat (length ranges) =? 0)
  then Raise ValueError
  else
    let '(dissolved_ranges, new_range) := fold_left step ranges ([], None) in
    Ok (dissolved_ranges ++ [new_range]).

(** The ranges of a list with absent entries. *)
Definition present (l : list (option SpatioTemporalRange))
  : list SpatioTemporalRange := omap id l.

(** *** Vocabulary of the ordering properties *)

Definition well_formed (r : SpatioTemporalRange) : Prop := t_0 r <= t_n r.

(** Two ranges overlap when they share more than an instant. *)
Definition overlaps (a b : SpatioTemporalRange) : Prop :=
  t_0 a < t_n b /\ t_0 b < t_n a.

Definition pairwise_disjoint (l : list SpatioTemporalRange) : Prop :=
  forall i j a b, (i < j)%nat -> l !! i = Some a -> l !! j = Some b ->
                  ~ overlaps a b.

Definition sorted_by_t_0 (l : list SpatioTemporalRange) : Prop :=
  StronglySorted (fun a b => t_0 a <= t_0 b) l.

(** What the specification says of a dissolved sequence. *)
Definition dissolved_ok (l : list SpatioTemporalRange) : Prop :=
  pairwise_disjoint l /\ sorted_by_t_0 l /\ Forall well_formed l.

(** The input is in time order: a range ends before the next one starts. *)
Definition time_ordered (l : list SpatioTemporalRange) : Prop :=
  Sorted (fun a b => t_n a <= t_0 b) l.

(** The emitted ranges are separated: each one ends strictly before the
    next one starts. *)
Definition separated (l : list SpatioTemporalRange) : Prop :=
  Sorted (fun a b => t_n a < t_0 b) l.

(** The dissolved sequence computed from the open range [cur] and the ranges
    still to come, head first: the reference the loop is compared with. *)
Fixpoint dissolve_from (cur : SpatioTemporalRange)
  (rest : list SpatioTemporalRange) : list SpatioTemporalRange :=
  match rest with
  | [] => [cur]
  | r :: rest' =>
      if touches cur r
      then dissolve_from (extend cur r) rest'
      else cur :: dissolve_from r rest'
  end.

End Dissolve.

(** ** Python sequences *)

(** [l[i]] on a list of instants, negative indices counting from the end.
    Out of range the source raises; every access below is guarded by a
    length test, and the embedding returns 0 there. *)
Definition getitem (l : list timestamp) (i : Z) : timestamp :=
  let n := Z.of_nat (length l) in
  let k := if i <? 0 then n + i else i in
  if (0 <=? k) && (k <? n) then nth (Z.to_nat k) l 0 else 0.

(** ** Stop detector *)

Module StopDetector.

(** A trajectory as the detector reads it: its identifier, the [is_latlon]
    flag, and what [traj.df.iterrows()] yields, each row reduced to its index
    and its cell in the geometry column. *)
Record Trajectory : Type := mkTrajectory {
  id : string;
  is_latlon : bool;
  iterrows : list (timestamp * Point)
}.

(** The locals of [_process_traj]. *)
Record state : Type := mkState {
  detected_stops : list TemporalRangeWithTrajId;
  segment_geoms : list Point;
  segment_times : list timestamp;
  is_stopped : bool;
  previously_stopped : bool
}.

Definition initial : state :=
  {| detected_stops := []; segment_geoms := []; segment_times := [];
     is_stopped := false; previously_stopped := false |}.

Section Detector.

(** [geometry_utils.mrr_diagonal(geoms, is_latlon)]: the diagonal of the
    minimum rotated rectangle of the points. *)
Variable mrr_diagonal : list Point -> bool -> Q.

Variable traj : Trajectory.
Variable max_diameter : Q.
Variable min_duration : timedelta.

(** [segment_geoms.append(row[geom_column_name]); segment_times.append(index)] *)
Definition append_sample (st : state) (row : timestamp * Point) : state :=
  {| detected_stops := detected_stops st;
     segment_geoms := segment_geoms st ++ [snd row];
     segment_times := segment_times st ++ [fst row];
     is_stopped := is_stopped st;
     previously_stopped := previously_stopped st |}.

(** The [while] loop: each turn pops the front of both lists. *)
Fixpoint trim (geoms : list Point) (times : list timestamp) {struct geoms}
  : list Point * list timestamp :=
  match geoms with
  | [] => (geoms, times)
  | _ :: geoms' =>
      if (2 <? Z.of_nat (length geoms))
         && (getitem times (-1) - getitem times 0 >=? min_duration)
      then trim geoms' (tail times)
      else (geoms, times)
  end.

(** [if not is_stopped: while ...] *)
Definition trim_if_moving (st : state) : state :=
  if negb (is_stopped st)
  then
    let '(geoms, times) := trim (segment_geoms st) (segment_times st) in
    {| detected_stops := detected_stops st;
       segment_geoms := geoms;
       segment_times := times;
       is_stopped := is_stopped st;
       previously_stopped := previously_stopped st |}
  else st.

(** The compactness test that sets [is_stopped]. *)
Definition update_is_stopped (st : state) : state :=
  {| detected_stops := detected_stops st;
     segment_geoms := segment_geoms st;
     segment_times := segment_times st;
     is_stopped :=
       (1 <? Z.of_nat (length (segment_geoms st)))
       && Qltb (mrr_diagonal (segment_geoms st) (is_latlon traj)) max_diameter;
     previously_stopped := previously_stopped st |}.

(** [if len(segment_geoms) > 1: ...]: the end of a stop. *)
Definition handle_transition (st : state) : state :=
  if 1 <? Z.of_nat (length (segment_geoms st))
  then
    let segment_end := getitem (segment_times st) (-2) in
    let segment_begin := getitem (segment_times st) 0 in
    if negb (is_stopped st) && previously_stopped st
    then
      if segment_end - segment_begin >=? min_duration
      then
        {| detected_stops :=
             detected_stops st
             ++ [mkTemporalRangeWithTrajId segment_begin segment_end (id traj)];
           segment_geoms := [];
           segment_times := [];
           is_stopped := is_stopped st;
           previously_stopped := previously_stopped st |}
      else st
    else st
  else st.

(** [previously_stopped = is_stopped] *)
Definition record_previous (st : state) : state :=
  {| detected_stops := detected_stops st;
     segment_geoms := segment_geoms st;
     segment_times := segment_times st;
     is_stopped := is_stopped st;
     previously_stopped := is_stopped st |}.

(** The body of [for index, row in traj.df.iterrows()]. *)
Definition step (st : state) (row : timestamp * Point) : state :=
  record_previous
    (handle_transition
       (update_is_stopped
          (trim_if_moving (append_sample st row)))).

(** The state when the loop ends. *)
Definition scan : state := fold_left step (iterrows traj) initial.

(** The [if] after the loop. *)
Definition final_stops (st : state) : list TemporalRangeWithTrajId :=
  if is_stopped st
     && (getitem (segment_times st) (-1) - getitem (segment_times st) 0
         >=? min_duration)
  then detected_stops st
       ++ [mkTemporalRangeWithTrajId (getitem (segment_times st) 0)
             (getitem (segment_times st) (-1)) (id traj)]
  else detected_stops st.

Definition _process_traj : list TemporalRangeWithTrajId := final_stops scan.

(** A trajectory at rest: every window of its first [k >= 2] samples is
    compact. *)
Definition stationary : Prop :=
  forall k, (2 <= k <= length (iterrows traj))%nat ->
    Qlt (mrr_diagonal (take k (snd <$> iterrows traj)) (is_latlon traj)) max_diameter.

End Detector.

(** The state while a trajectory rests: nothing detected yet, the window
    holds every sample seen. *)
Definition resting (rows : list (timestamp * Point)) : state :=
  {| detected_stops := [];
     segment_geoms := snd <$> rows;
     segment_times := fst <$> rows;
     is_stopped := true;
     previously_stopped := true |}.

(** What [TrajectoryStopDetector] was created on. *)
Inductive detector_input : Type :=
  | OfTrajectory (traj : Trajectory)
  | OfTrajectoryCollection (trajs : list Trajectory)
  | OfOther.

Definition _process_traj_collection (mrr_diagonal : list Point -> bool -> Q)
  (trajs : list Trajectory) (max_diameter : Q) (min_duration : timedelta)
  : list TemporalRangeWithTrajId :=
  flat_map (fun traj => _process_traj mrr_diagonal traj max_diameter min_duration)
    trajs.

Definition get_stop_time_ranges (mrr_diagonal : list Point -> bool -> Q)
  (self : detector_input) (max_diameter : Q) (min_duration : timedelta)
  : result (list TemporalRangeWithTrajId) :=
  match self with
  | OfTrajectory traj =>
      Ok (_process_traj mrr_diagonal traj max_diameter min_duration)
  | OfTrajectoryCollection trajs =>
      Ok (_process_traj_collection mrr_diagonal trajs max_diameter min_duration)
  | OfOther => Raise TypeError
  end.

(** The diagonal on points of one west-east line, where the minimum rotated
    rectangle is the stretch between the extreme points: the instance the
    examples run on. *)
Definition line_diagonal (geoms : list Point) (_ : bool) : Q :=
  match geoms with
  | [] => 0%Q
  | p :: rest =>
      let lo := fold_left (fun a q => if Qle_bool (fst q) a then fst q else a) rest (fst p) in
      let hi := fold_left (fun a q => if Qle_bool a (fst q) then fst q else a) rest (fst p) in
      Qminus hi lo
  end.

(** Sample run: three samples at rest, ten seconds apart, then a sample
    far away. *)
Definition sample_traj : Trajectory :=
  {| id := "traj";
     is_latlon := false;
     iterrows := [(0, origin); (timedelta_seconds 10, origin);
                  (timedelta_seconds 20, origin)] |}.

Definition sample_stopped : state :=
  {| detected_stops := [];
     segment_geoms := [origin; origin; origin];
     segment_times := [0; timedelta_seconds 10; timedelta_seconds 20];
     is_stopped := true;
     previously_stopped := true |}.

Definition sample_far_row : timestamp * Point :=
  (timedelta_seconds 30, (100%Q, 0%Q)).

End StopDetector.

(** ** Tables in a store *)

Module Frames.

(** A cell of a table. *)
Inductive value : Type :=
  | VTime (t : timestamp)
  | VBool (b : bool)
  | VInt (n : Z)
  | VNum (q : Q)
  | VStr (s : string)
  | VGeom (p : Point)
  | VNaN.

(** A pandas table: its index and its columns by name, each as long as the
    index. *)
Record DataFrame : Type := mkDataFrame {
  index : list timestamp;
  columns : gmap string (list value)
}.

(** A row as a [Series]: the cells by column name. *)
Abbreviation Series := (gmap string value).

(** Tables are objects: a variable holds a reference, the store holds the
    tables.  [NoObject] is raised on a reference to no table, which Python
    cannot produce. *)
Abbreviation loc := nat.
Abbreviation store := (list DataFrame).

(** A computation that reads and writes the store and may raise. *)
Definition M (A : Type) : Type := store -> result A * store.

#[global] Instance M_ret : MRet M := fun A (a : A) (s : store) => (Ok a, s).

#[global] Instance M_bind : MBind M :=
  fun A B (f : A -> M B) (m : M A) (s : store) =>
    match m s with
    | (Ok a, s') => f a s'
    | (Raise e, s') => (Raise e, s')
    end.

Definition raise {A} (e : exn) : M A := fun s => (Raise e, s).

(** [try: m except: h] *)
Definition catch {A} (m : M A) (h : exn -> M A) : M A :=
  fun s =>
    match m s with
    | (Raise e, s') => h e s'
    | r => r
    end.

Definition lift {A} (r : result A) : M A := fun s => (r, s).

Definition read (l : loc) : M DataFrame :=
  fun s =>
    match s !! l with
    | Some d => (Ok d, s)
    | None => (Raise NoObject, s)
    end.

Definition write (l : loc) (d : DataFrame) : M unit :=
  fun s => (Ok tt, <[l := d]> s).

Definition alloc (d : DataFrame) : M loc :=
  fun s => (Ok (length s), s ++ [d]).

(** [for x in l: f(x)] *)
Fixpoint for_each {A} (f : A -> M unit) (l : list A) : M unit :=
  match l with
  | [] => mret tt
  | x :: l' => _ ← f x; for_each f l'
  end.

(** *** pandas *)

(** [df[c] = vals] with a column of values: in place. *)
Definition setitem (l : loc) (c : string) (vals : list value) : M unit :=
  d ← read l;
  if Nat.eqb (length vals) (length (index d))
  then write l {| index := index d; columns := <[c := vals]> (columns d) |}
  else raise ValueError.

(** [df[c] = v] with a scalar: the column holds [v] in every row. *)
Definition setitem_scalar (l : loc) (c : string) (v : value) : M unit :=
  d ← read l;
  write l {| index := index d;
             columns := <[c := replicate (length (index d)) v]> (columns d) |}.

(** [df.copy()] *)
Definition copy (l : loc) : M loc := d ← read l; alloc d.

(** [index.get_loc(t, method='pad')] on an increasing index: the position
    of the last label at or before [t]. *)
Definition get_loc_pad (idx : list timestamp) (t : timestamp) : result nat :=
  match length (filter (fun x => x <= t) idx) with
  | O => Raise KeyError
  | S n => Ok n
  end.

(** [df.iloc[i].copy()] *)
Definition iloc (d : DataFrame) (i : nat) : Series :=
  omap (fun col : list value => col !! i) (columns d).

(** [df.loc[t] = row]: the rows labelled [t] take the cells of [row]; with
    no such row, one is added at the end. *)
Definition loc_setitem (d : DataFrame) (t : timestamp) (row : Series) : DataFrame :=
  if bool_decide (t ∈ index d)
  then
    {| index := index d;
       columns :=
         map_imap
           (fun c col =>
              Some (zip_with
                      (fun x v => if Z.eqb x t then default VNaN (row !! c) else v)
                      (index d) col))
           (columns d) |}
  else
    {| index := index d ++ [t];
       columns :=
         map_imap (fun c col => Some (col ++ [default VNaN (row !! c)])) (columns d) |}.

(** Insertion of a position into positions sorted by [key]. *)
Fixpoint insert_by (key : nat -> Z) (i : nat) (l : list nat) : list nat :=
  match l with
  | [] => [i]
  | j :: l' => if key i <=? key j then i :: l else j :: insert_by key i l'
  end.

(** The positions [0 .. n-1] of a list of labels, in the order of the
    labels. *)
Definition argsort (labels : list Z) : list nat :=
  foldr (insert_by (fun i => default 0 (labels !! i))) [] (seq 0 (length labels)).

(** [l[order]] *)
Definition take_positions {A} (l : list A) (order : list nat) : list A :=
  omap (fun i => l !! i) order.

(** [df.sort_index()]: a new table. *)
Definition sort_index (d : DataFrame) : DataFrame :=
  let order := argsort (index d) in
  {| index := take_positions (index d) order;
     columns := (fun col => take_positions col order) <$> columns d |}.

End Frames.

(** ** Overlay engine *)

Module Overlay.

Import Frames Dissolve Interpolation.

(** A trajectory object: its identifier, the reference to its table [df],
    and its parent when it is a segment. *)
#[warnings="-register-all"]
Inductive Trajectory : Type := mkTrajectory {
  id : string;
  df : loc;
  parent : option Trajectory
}.

(** A row of the table of lines, [traj._to_line_df()]: one line per pair of
    consecutive samples, labelled by the time of the second. *)
Record Line : Type := mkLine {
  line_prev_t : timestamp;
  line_t : timestamp;
  line_geometry : LineString
}.

(** What a list of ranges may hold. *)
Inductive Range : Type :=
  | RTemporal (r : TemporalRange)
  | RSpatioTemporal (r : SpatioTemporalRange)
  | RNone.

Definition Range_of_option (o : option SpatioTemporalRange) : Range :=
  match o with
  | Some r => RSpatioTemporal r
  | None => RNone
  end.

(** What the two files call and do not define: shapely, the spatial index,
    and the methods of [Trajectory]. *)
Class Collaborators : Type := {
  Polygon : Type;
  GeoJSON : Type;
  (** [shapely.geometry.shape] *)
  shape : GeoJSON -> result Polygon;
  (** [line.intersects(polygon)] *)
  line_intersects : LineString -> Polygon -> bool;
  (** [geometry.intersects(polygon)] on a cell of the geometry column *)
  cell_intersects : value -> Polygon -> bool;
  (** [line.intersection(polygon)] *)
  line_intersection : LineString -> Polygon -> Geometry;
  (** [line.project(point)] and [line.length] *)
  line_project : LineString -> Point -> Q;
  line_length : LineString -> Q;
  (** [line_df.sindex] queried with the bounds of the polygon; [None] when
      there is no index *)
  sindex_query : list Line -> Polygon -> option (list nat);
  (** [traj.to_linestring()] *)
  to_linestring : Trajectory -> M LineString;
  (** [traj._to_line_df()] *)
  _to_line_df : Trajectory -> M (list Line);
  (** [traj.copy()] *)
  traj_copy : Trajectory -> M Trajectory;
  (** [traj.get_segment_between(t1, t2)] *)
  get_segment_between : Trajectory -> timestamp -> timestamp -> M Trajectory
}.

(** The value of a property of a feature: a scalar (a number, a string, a
    boolean, null), or a list of scalars. *)
Inductive property : Type :=
  | PScalar (v : value)
  | PList (vs : list value).

(** [df[c] = value] with the value of a property: a scalar fills the
    column, a list is taken as the column itself, one element per row, and
    must be as long as the table. *)
Definition setitem_value (l : loc) (c : string) (p : property) : M unit :=
  match p with
  | PScalar v => setitem_scalar l c v
  | PList vs => setitem l c vs
  end.

(** A feature as [intersection] receives it: any object, or a dict with or
    without the keys [geometry] and [properties]. *)
Inductive Feature `{Collaborators} : Type :=
  | NotADict
  | Dict (geometry : option GeoJSON) (properties : option (gmap string property)).

Section Engine.

Context `{Collaborators}.

Definition intersects (traj : Trajectory) (polygon : Polygon) : M bool :=
  catch (line ← to_linestring traj; mret (line_intersects line polygon))
        (fun _ => mret false).

Definition create_entry_and_exit_points (traj : Trajectory) (range : Range)
  : M loc :=
  match range with
  | RSpatioTemporal range =>
      d ← read (df traj);
      i0 ← lift (get_loc_pad (index d) (t_0 range));
      let row0 := <["geometry" := VGeom (pt_0 range)]> (iloc d i0) in
      i_n ← lift (get_loc_pad (index d) (t_n range));
      let rown := <["geometry" := VGeom (pt_n range)]> (iloc d i_n) in
      temp_df ← copy (df traj);
      d1 ← read temp_df;
      _ ← write temp_df (loc_setitem d1 (t_0 range) row0);
      d2 ← read temp_df;
      _ ← write temp_df (loc_setitem d2 (t_n range) rown);
      d3 ← read temp_df;
      alloc (sort_index d3)
  | _ => raise TypeError
  end.

(** [the_range.t_0] and [the_range.t_n] *)
Definition range_bounds (the_range : Range) : M (timestamp * timestamp) :=
  match the_range with
  | RTemporal r => mret (range_t_0 r, range_t_n r)
  | RSpatioTemporal r => mret (t_0 r, t_n r)
  | RNone => raise AttributeError
  end.

(** The loop of [_get_segments_for_ranges], with its locals [counter] and
    [segments]. *)
Fixpoint segments_loop (traj : Trajectory) (ranges : list Range)
  (counter : nat) (segments : list Trajectory) : M (list Trajectory) :=
  match ranges with
  | [] => mret segments
  | the_range :: rest =>
      temp_traj ← traj_copy traj;
      temp_traj ←
        match the_range with
        | RSpatioTemporal _ =>
            l ← create_entry_and_exit_points traj the_range;
            mret {| id := id temp_traj; df := l; parent := parent temp_traj |}
        | _ => mret temp_traj
        end;
      found ←
        catch
          ('(t1, t2) ← range_bounds the_range;
           segment ← get_segment_between temp_traj t1 t2;
           mret (Some segment))
          (fun e => match e with
                    | ValueError => mret None
                    | _ => raise e
                    end);
      match found with
      | None => segments_loop traj rest counter segments
      | Some segment =>
          let segment :=
            {| id := id traj +:+ "_" +:+ pretty counter;
               df := df segment;
               parent := Some traj |} in
          segments_loop traj rest (S counter) (segments ++ [segment])
      end
  end.

Definition _get_segments_for_ranges (traj : Trajectory) (ranges : list Range)
  : M (list Trajectory) :=
  segments_loop traj ranges 0 [].

(** [(flags.shift(1) != flags).astype(int).cumsum()]: the number of the run
    each row is in, from 1. *)
Fixpoint run_numbers (prev : option bool) (n : Z) (flags : list bool) : list Z :=
  match flags with
  | [] => []
  | b :: flags' =>
      let n' := if bool_decide (prev = Some b) then n else n + 1 in
      n' :: run_numbers (Some b) n' flags'
  end.

(** One row of [df.groupby('segment').agg(...)]: [t_min], [t_max] and
    [intersects_min] of the rows numbered [k]. *)
Definition aggregate (rows : list (Z * (timestamp * bool))) (k : Z)
  : option (timestamp * timestamp * bool) :=
  match snd <$> filter (fun r => fst r = k) rows with
  | [] => None
  | (t, b) :: group =>
      Some (foldr Z.min t (fst <$> group),
            foldr Z.max t (fst <$> group),
            forallb (fun x : bool => x) (b :: (snd <$> group)))
  end.

(** The groups, in the order of their numbers. *)
Definition groupby_segment (rows : list (Z * (timestamp * bool)))
  : list (timestamp * timestamp * bool) :=
  omap (fun k => aggregate rows (Z.of_nat k)) (seq 1 (length rows)).

Definition _determine_time_ranges_pointbased (traj : Trajectory)
  (polygon : Polygon) : M (list TemporalRange) :=
  let df := df traj in
  d ← read df;
  _ ← setitem df "t" (VTime <$> index d);
  d ← read df;
  geometry ← match columns d !! "geometry" with
             | Some col => mret col
             | None => raise AttributeError
             end;
  let flags := (fun v => cell_intersects v polygon) <$> geometry in
  _ ← setitem df "intersects" (VBool <$> flags);
  let segment := run_numbers None 0 flags in
  _ ← setitem df "segment" (VInt <$> segment);
  d ← read df;
  let groups := groupby_segment (zip segment (zip (index d) flags)) in
  mret (omap (fun g : timestamp * timestamp * bool =>
                let '(t_min, t_max, intersects_min) := g in
                if intersects_min then Some (mkTemporalRange t_min t_max)
                else None)
             groups).

(** Sorting of the rows of the line table by their label. *)
Fixpoint insert_line (r : Line) (l : list Line) : list Line :=
  match l with
  | [] => [r]
  | r' :: l' =>
      if line_t r <=? line_t r' then r :: l else r' :: insert_line r l'
  end.

Definition sort_lines (l : list Line) : list Line := foldr insert_line [] l.

Definition _get_potentially_intersecting_lines (traj : Trajectory)
  (polygon : Polygon) : M (list Line) :=
  line_df ← _to_line_df traj;
  match sindex_query line_df polygon with
  | Some possible_matches_index =>
      match mapM (fun i => line_df !! i) possible_matches_index with
      | Some possible_matches => mret (sort_lines possible_matches)
      | None => raise IndexError
      end
  | None => mret line_df
  end.

(** [possible_matches.apply(_get_spatiotemporal_ref, axis=1)] *)
Fixpoint apply_rows (rows : list LineRow)
  : result (list (option SpatioTemporalRange)) :=
  match rows with
  | [] => Ok []
  | row :: rows' =>
      match _get_spatiotemporal_ref line_project line_length row with
      | Ok r =>
          match apply_rows rows' with
          | Ok rs => Ok (r :: rs)
          | Raise e => Raise e
          end
      | Raise e => Raise e
      end
  end.

Definition _determine_time_ranges_linebased (traj : Trajectory)
  (polygon : Polygon) : M (list (option SpatioTemporalRange)) :=
  possible_matches ← _get_potentially_intersecting_lines traj polygon;
  let rows :=
    (fun m : Line =>
       {| row_spatial_intersection := line_intersection (line_geometry m) polygon;
          row_prev_t := line_prev_t m;
          row_t := line_t m;
          row_line := line_geometry m |}) <$> possible_matches in
  ranges ← lift (apply_rows rows);
  lift (_dissolve_ranges ranges).

Definition clip (traj : Trajectory) (polygon : Polygon) (pointbased : bool)
  : M (list Trajectory) :=
  b ← intersects traj polygon;
  if negb b then mret []
  else
    ranges ←
      (if pointbased
       then rs ← _determine_time_ranges_pointbased traj polygon;
            mret (RTemporal <$> rs)
       else rs ← _determine_time_ranges_linebased traj polygon;
            mret (Range_of_option <$> rs));
    _get_segments_for_ranges traj ranges.

Definition _get_geometry_and_properties_from_feature (feature : Feature)
  : result (Polygon * gmap string property) :=
  match feature with
  | NotADict => Raise TypeError
  | Dict (Some geometry) (Some properties) =>
      match shape geometry with
      | Ok geometry => Ok (geometry, properties)
      | Raise _ => Raise TypeError
      end
  | Dict _ _ => Raise TypeError
  end.

(** The inner loop of [intersection], over [properties.items()]. *)
Definition stamp (properties : gmap string property) (clipping : Trajectory)
  : M unit :=
  for_each
    (fun kv : string * property =>
       setitem_value (df clipping) ("intersecting_" +:+ fst kv) (snd kv))
    (map_to_list properties).

Definition intersection (traj : Trajectory) (feature : Feature)
  (pointbased : bool) : M (list Trajectory) :=
  '(geometry, properties) ← lift (_get_geometry_and_properties_from_feature feature);
  clipped ← clip traj geometry pointbased;
  _ ← for_each (stamp properties) clipped;
  mret clipped.

End Engine.







End Overlay.

(** ** The collaborators for movement along one west-east line *)

Module WestEastOverlay.

Import Frames Overlay.

Definition cell_point (v : value) : option Point :=
  match v with
  | VGeom p => Some p
  | _ => None
  end.

Definition cell_intersects (v : value) (b : WestEast.Band) : bool :=
  match v with
  | VGeom p => WestEast.point_intersects p b
  | _ => false
  end.

(** Modelled from the spec: [Trajectory.to_linestring], the conversion of
    the whole trajectory to a single line geometry, which fails on a
    trajectory with too few samples to form a line. *)
Definition to_linestring (traj : Trajectory) : M LineString :=
  d ← read (df traj);
  match columns d !! "geometry" with
  | Some col =>
      let pts := omap cell_point col in
      if (length pts <? 2)%nat then raise ValueError else mret pts
  | None => raise AttributeError
  end.

Fixpoint lines_between (prev : timestamp * Point)
  (rows : list (timestamp * Point)) : list Line :=
  match rows with
  | [] => []
  | row :: rows' =>
      mkLine (fst prev) (fst row) [snd prev; snd row] :: lines_between row rows'
  end.

(** Modelled from the spec: [Trajectory._to_line_df], the construction of
    one line geometry per pair of consecutive samples. *)
Definition _to_line_df (traj : Trajectory) : M (list Line) :=
  d ← read (df traj);
  match columns d !! "geometry" with
  | Some col =>
      match zip (index d) (omap cell_point col) with
      | [] => mret []
      | row :: rows => mret (lines_between row rows)
      end
  | None => raise AttributeError
  end.

(** Modelled from the spec: [Trajectory.copy], a deep copy. *)
Definition traj_copy (traj : Trajectory) : M Trajectory :=
  l ← copy (df traj);
  mret {| id := id traj; df := l; parent := parent traj |}.

(** The positions of the labels from [t1] to [t2]. *)
Definition positions_between (idx : list timestamp) (t1 t2 : timestamp) : list nat :=
  List.filter (fun i => match idx !! i with
                        | Some t => (t1 <=? t) && (t <=? t2)
                        | None => false
                        end)
              (seq 0 (length idx)).

(** Modelled from the spec: [Trajectory.get_segment_between], the slice of
    the table from [t1] to [t2] as a new trajectory, which fails when the
    range has no overlap with the stored data. *)
Definition get_segment_between (traj : Trajectory) (t1 t2 : timestamp)
  : M Trajectory :=
  d ← read (df traj);
  let keep := positions_between (index d) t1 t2 in
  match keep with
  | [] => raise ValueError
  | _ =>
      l ← alloc {| index := take_positions (index d) keep;
                   columns := (fun col => take_positions col keep) <$> columns d |};
      mret {| id := id traj; df := l; parent := parent traj |}
  end.

#[global] Instance collaborators : Collaborators := {
  Polygon := WestEast.Band;
  GeoJSON := WestEast.Band;
  shape := Ok;
  line_intersects := WestEast.line_intersects;
  cell_intersects := cell_intersects;
  line_intersection := WestEast.intersection;
  line_project := WestEast.project;
  line_length := WestEast.length;
  sindex_query := fun _ _ => None;
  to_linestring := to_linestring;
  _to_line_df := _to_line_df;
  traj_copy := traj_copy;
  get_segment_between := get_segment_between
}.

(** Sample run: four samples on the line [y = 0], at x = 0, 3, 4, 10 and
    at 0 s, 3 s, 4 s, 10 s, against the band of the points with
    [2 <= x <= 5]. *)
Definition sample_table : DataFrame :=
  {| index := [0; timedelta_seconds 3; timedelta_seconds 4; timedelta_seconds 10];
     columns :=
       {[ "geometry" := [VGeom (0%Q, 0%Q); VGeom (3%Q, 0%Q);
                         VGeom (4%Q, 0%Q); VGeom (10%Q, 0%Q)] ]} |}.

Definition sample_store : store := [sample_table].

Definition sample_traj : Trajectory :=
  {| id := "traj"; df := 0%nat; parent := None |}.

Definition sample_band : WestEast.Band := (2%Q, 5%Q).



End WestEastOverlay.

(** ** Invariants of the stop detector *)

Module StopDetectorInvariants.

Import StopDetector.

(** What holds of the locals of [_process_traj] between two iterations: the
    two window lists are as long as each other, [previously_stopped] is
    [is_stopped], and a stopped state has at least two samples in its
    window, so that every index the code reads is in range. *)
Definition window_ok (st : state) : Prop :=
  length (segment_geoms st) = length (segment_times st)
  /\ previously_stopped st = is_stopped st
  /\ (is_stopped st = true -> (2 <= length (segment_times st))%nat).

(** A detected stop of the trajectory [traj] lasts at least [min_duration]. *)
Definition long_enough (traj : Trajectory) (min_duration : timedelta)
  (stop : TemporalRangeWithTrajId) : Prop :=
  stop_t_n stop - stop_t_0 stop >= min_duration /\ stop_traj_id stop = id traj.

(** The stops so far and the window against the times [seen] so far: the
    window holds the last samples seen, each stop runs forward between two
    samples the window has left behind, and the stops follow one another. *)
Definition chronological (seen : list timestamp) (st : state) : Prop :=
  exists before,
    seen = before ++ segment_times st
    /\ Forall (fun stop => stop_t_0 stop <= stop_t_n stop
                           /\ stop_t_0 stop ∈ before /\ stop_t_n stop ∈ before)
         (detected_stops st)
    /\ StronglySorted (fun a b => stop_t_n a < stop_t_0 b) (detected_stops st).

(** Sample run: at rest at x = 0 for 20 s, away to x = 100, at rest there
    for 30 s, away again; a sample every ten seconds. *)
Definition sample_two_rests : Trajectory :=
  {| id := "traj";
     is_latlon := false;
     iterrows := [(0, origin); (timedelta_seconds 10, origin);
                  (timedelta_seconds 20, origin);
                  (timedelta_seconds 30, (100%Q, 0%Q));
                  (timedelta_seconds 40, (100%Q, 0%Q));
                  (timedelta_seconds 50, (100%Q, 0%Q));
                  (timedelta_seconds 60, (100%Q, 0%Q));
                  (timedelta_seconds 70, (500%Q, 0%Q))] |}.

(** No stretch of two or more consecutive samples of the trajectory is
    compact: the diagonal of each is at least [max_diameter]. *)
Definition never_compact (mrr_diagonal : list Point -> bool -> Q)
  (traj : Trajectory) (max_diameter : Q) : Prop :=
  forall i j, (i + 2 <= j <= length (iterrows traj))%nat ->
    Qle max_diameter
      (mrr_diagonal (drop i (take j (snd <$> iterrows traj))) (is_latlon traj)).

(** Sample run: on the move all along, 100 units every ten seconds. *)
Definition sample_moving : Trajectory :=
  {| id := "traj";
     is_latlon := false;
     iterrows := [(0, origin); (timedelta_seconds 10, (100%Q, 0%Q));
                  (timedelta_seconds 20, (200%Q, 0%Q));
                  (timedelta_seconds 30, (300%Q, 0%Q))] |}.

(** A trajectory of a single sample. *)
Definition sample_single : Trajectory :=
  {| id := "traj"; is_latlon := false; iterrows := [(0, origin)] |}.

End StopDetectorInvariants.

(** ** What the point-based scan returns *)

Module OverlayReference.

Import Frames Overlay.

(** The ranges of [_determine_time_ranges_pointbased] by the index of the
    table and the flags of its samples: the runs of flagged samples. *)
Definition pointbased_ranges (idx : list timestamp) (flags : list bool)
  : list TemporalRange :=
  omap (fun g : timestamp * timestamp * bool =>
          let '(t_min, t_max, intersects_min) := g in
          if intersects_min then Some (mkTemporalRange t_min t_max) else None)
       (groupby_segment (zip (run_numbers None 0 flags) (zip idx flags))).

(** A table is well formed: every column is as long as the index. *)
Definition table_ok (d : DataFrame) : Prop :=
  forall c col, columns d !! c = Some col -> length col = length (index d).




End OverlayReference.

(** ** Further sample runs of the overlay *)

Module OverlaySamples.

Import Frames Overlay WestEastOverlay.

(** A trajectory that only touches the band [2 <= x <= 5]: two samples, at
    x = 0 and x = 2. *)
Definition touching_table : DataFrame :=
  {| index := [0; timedelta_seconds 2];
     columns := {[ "geometry" := [VGeom (0%Q, 0%Q); VGeom (2%Q, 0%Q)] ]} |}.

Definition touching_store : store := [touching_table].

(** The stretch of the sample trajectory inside the band: in at (2,0) after
    2 s, out at (5,0) after 5 s. *)
Definition sample_range : SpatioTemporalRange :=
  mkSpatioTemporalRange (2%Q, 0%Q) (5%Q, 0%Q)
    (timedelta_seconds 2) (timedelta_seconds 5).

(** The same collaborators with a spatial index over the lines: the query
    reports the positions of the lines that meet the band, the last one
    first. *)
Definition indexed_collaborators : Collaborators :=
  Build_Collaborators
    WestEast.Band
    WestEast.Band
    Ok
    WestEast.line_intersects
    WestEastOverlay.cell_intersects
    WestEast.intersection
    WestEast.project
    WestEast.length
    (fun lines band =>
       Some (reverse
               (List.filter
                  (fun i => match lines !! i with
                            | Some m =>
                                WestEast.line_intersects (line_geometry m) band
                            | None => false
                            end)
                  (seq 0 (length lines)))))
    WestEastOverlay.to_linestring
    WestEastOverlay._to_line_df
    WestEastOverlay.traj_copy
    WestEastOverlay.get_segment_between.

End OverlaySamples.

(** Sample data: instants in whole seconds and ranges at the origin. *)
Definition seconds (s : Z) : timestamp := timedelta_seconds s.

Definition range_at (a b : Z) : SpatioTemporalRange :=
  mkSpatioTemporalRange origin origin (seconds a) (seconds b).

(* ===================================================================== *)
(** * Properties *)
(* ===================================================================== *)

(** Arithmetic on the sample instants. *)
Ltac sample_lia :=
  unfold range_at, seconds, timedelta_seconds, timedelta_milliseconds in *;
  cbn in *; lia.

Section TimeFacts.

Lemma is_equal_true_iff (t1 t2 : timestamp) :
  is_equal t1 t2 = true <-> Z.abs (t1 - t2) < 10000.
Proof.
  unfold is_equal. cbv zeta. apply Z.ltb_lt.
Qed.


End TimeFacts.

Section StampFacts.

Import Stamps.

(** On naive values on whole microseconds, whatever their types,
    [is_equal] in full returns what [is_equal] of the pipelines does. *)
Lemma is_equal_on_whole_microseconds (a b : timestamp) :
  Stamps.is_equal (Datetime a None) (Datetime b None) = Ok (Time.is_equal a b)
  /\ Stamps.is_equal (Timestamp (a * 1000) None) (Datetime b None)
     = Ok (Time.is_equal a b)
  /\ Stamps.is_equal (Datetime a None) (Timestamp (b * 1000) None)
     = Ok (Time.is_equal a b)
  /\ Stamps.is_equal (Timestamp (a * 1000) None) (Timestamp (b * 1000) None)
     = Ok (Time.is_equal a b).
Proof.
  assert ((Z.abs (a * 1000 - b * 1000) <? ten_milliseconds) = Time.is_equal a b)
    as E.
  { unfold Time.is_equal, ten_milliseconds, timedelta_milliseconds. cbv zeta.
    destruct (Z.ltb_spec (Z.abs (a * 1000 - b * 1000)) (10 * 1000000)),
      (Z.ltb_spec (Z.abs (a - b)) (10 * 1000)); try reflexivity; lia. }
  unfold Stamps.is_equal, tz_localize, to_pydatetime, sub.
  cbn [wall_ns tzinfo_of]. rewrite Z.div_mul by lia. now rewrite E.
Qed.





End StampFacts.

Section DissolveFacts.

Import Dissolve.

Implicit Types (r cur nr : SpatioTemporalRange).
Implicit Types (acc ranges : list (option SpatioTemporalRange)).

Lemma copy_eq r :
  mkSpatioTemporalRange (pt_0 r) (pt_n r) (t_0 r) (t_n r) = r.
Proof. now destruct r. Qed.

(** The test of the [elif], as arithmetic on microseconds. *)
Lemma touches_spec nr r :
  touches nr r = true <->
  t_n nr = t_0 r \/ (t_n nr < t_0 r /\ Z.abs (t_0 r - t_n nr) < 10000).
Proof.
  unfold touches.
  rewrite orb_true_iff, andb_true_iff, Z.eqb_eq, Z.gtb_gt,
    is_equal_true_iff.
  lia.
Qed.

Lemma step_absent (st : state) : step st None = st.
Proof. now destruct st. Qed.

Lemma step_open acc r : step (acc, None) (Some r) = (acc, Some r).
Proof. cbn. now rewrite copy_eq. Qed.

Lemma step_extend acc nr r :
  touches nr r = true -> step (acc, Some nr) (Some r) = (acc, Some (extend nr r)).
Proof. intros H. cbn. now rewrite H. Qed.

Lemma step_emit acc nr r :
  touches nr r = false ->
  step (acc, Some nr) (Some r) = (acc ++ [Some nr], Some r).
Proof. intros H. cbn. now rewrite H, copy_eq. Qed.


(** C8: on the empty sequence [_dissolve_ranges] raises [ValueError]; it
    returns no value. *)
Theorem dissolve_ranges_empty_raises :
  _dissolve_ranges [] = Raise ValueError
  /\ forall out, _dissolve_ranges [] <> Ok out.
Proof.
  split; [reflexivity | intros out H; discriminate H].
Qed.

Lemma fold_step_all_absent ranges (st : state) :
  Forall (fun o => o = None) ranges -> fold_left step ranges st = st.
Proof.
  intros H. revert st. induction H as [|r ranges -> _ IH]; intros st.
  - reflexivity.
  - cbn [fold_left]. rewrite step_absent. apply IH.
Qed.

(** C10: on a non-empty sequence whose entries are all absent,
    [_dissolve_ranges] returns the one-element list holding the absent
    marker. *)
Theorem dissolve_ranges_all_absent ranges :
  ranges <> [] ->
  Forall (fun o => o = None) ranges ->
  _dissolve_ranges ranges = Ok [None].
Proof.
  intros Hne Hall. unfold _dissolve_ranges.
  destruct ranges as [|r ranges]; [contradiction|].
  cbn [length]. rewrite Nat2Z.inj_succ.
  destruct (Z.eqb_spec (Z.succ (Z.of_nat (length ranges))) 0) as [E|_]; [lia|].
  now rewrite (fold_step_all_absent _ _ Hall).
Qed.

Lemma dissolve_ranges_all_absent_witness :
  _dissolve_ranges [None; None] = Ok [None].
Proof.
  apply dissolve_ranges_all_absent; [discriminate | repeat constructor].
Defined.

(** *** The loop against its reference *)

Lemma present_cons_some r ranges : present (Some r :: ranges) = r :: present ranges.
Proof. reflexivity. Qed.

Lemma present_cons_none ranges : present (None :: ranges) = present ranges.
Proof. reflexivity. Qed.

Lemma present_some (l : list SpatioTemporalRange) : present (Some <$> l) = l.
Proof.
  induction l as [|r l IH]; [reflexivity|].
  rewrite fmap_cons, present_cons_some. now f_equal.
Qed.

Lemma fold_step_present ranges (st : state) :
  fold_left step ranges st = fold_left step (Some <$> present ranges) st.
Proof.
  revert st. induction ranges as [|[r|] ranges IH]; intros st.
  - reflexivity.
  - rewrite present_cons_some, fmap_cons. cbn [fold_left]. apply IH.
  - rewrite present_cons_none. cbn [fold_left]. rewrite step_absent. apply IH.
Qed.

Lemma fold_step_dissolve_from (rest : list SpatioTemporalRange) acc cur :
  let '(d, nr) := fold_left step (Some <$> rest) (acc, Some cur) in
  d ++ [nr] = acc ++ (Some <$> dissolve_from cur rest).
Proof.
  revert acc cur. induction rest as [|r rest IH]; intros acc cur.
  - reflexivity.
  - rewrite fmap_cons. cbn [fold_left dissolve_from].
    destruct (touches cur r) eqn:E.
    + rewrite (step_extend _ _ _ E). apply IH.
    + rewrite (step_emit _ _ _ E).
      specialize (IH (acc ++ [Some cur]) r).
      destruct (fold_left step (Some <$> rest) (acc ++ [Some cur], Some r)) as [d nr].
      rewrite IH, fmap_cons, <- app_assoc. reflexivity.
Qed.

(** What [_dissolve_ranges] returns, by the ranges present in its input. *)
Lemma dissolve_ranges_present ranges :
  ranges <> [] ->
  _dissolve_ranges ranges
  = Ok match present ranges with
       | [] => [None]
       | r :: rest => Some <$> dissolve_from r rest
       end.
Proof.
  intros Hne. unfold _dissolve_ranges.
  destruct (Z.eqb_spec (Z.of_nat (length ranges)) 0) as [E|_].
  { destruct ranges; [contradiction | cbn in E; lia]. }
  rewrite fold_step_present.
  destruct (present ranges) as [|r rest]; [reflexivity|].
  rewrite fmap_cons. cbn [fold_left]. rewrite step_open.
  pose proof (fold_step_dissolve_from rest [] r) as H.
  destruct (fold_left step (Some <$> rest) ([], Some r)) as [d nr].
  now rewrite H.
Qed.

(** *** Order of the dissolved ranges *)

Lemma dissolve_from_head cur (rest : list SpatioTemporalRange) :
  exists c tl, dissolve_from cur rest = c :: tl /\ t_0 c = t_0 cur.
Proof.
  revert cur. induction rest as [|r rest IH]; intros cur; cbn [dissolve_from].
  - now exists cur, [].
  - destruct (touches cur r).
    + destruct (IH (extend cur r)) as (c & tl & -> & Hc). now exists c, tl.
    + now exists cur, (dissolve_from r rest).
Qed.

Lemma dissolve_from_separated cur (rest : list SpatioTemporalRange) :
  well_formed cur -> Forall well_formed rest -> time_ordered (cur :: rest) ->
  separated (dissolve_from cur rest) /\ Forall well_formed (dissolve_from cur rest).
Proof.
  revert cur. induction rest as [|r rest IH]; intros cur Hcur Hrest Hord;
    cbn [dissolve_from].
  - split; repeat constructor; assumption.
  - apply Forall_cons_1 in Hrest as [Hr Hrest].
    apply Sorted_inv in Hord as [Hord Hhd]. apply HdRel_inv in Hhd.
    destruct (touches cur r) eqn:E.
    + apply IH; [ | assumption | ].
      * unfold well_formed in *. cbn. lia.
      * apply Sorted_inv in Hord as [Hord' Hhd'].
        constructor; [assumption|].
        destruct Hhd' as [|b l Hb]; constructor. exact Hb.
    + destruct (IH r Hr Hrest Hord) as [Hsep Hwf].
      split; [|now constructor].
      constructor; [assumption|].
      destruct (dissolve_from_head r rest) as (c & tl & -> & Hc).
      constructor. rewrite Hc.
      assert (t_n cur <> t_0 r).
      { intros Heq. assert (touches cur r = true) as Ht
          by (apply touches_spec; now left). congruence. }
      lia.
Qed.

Lemma StronglySorted_lookup {A} (R : A -> A -> Prop) (l : list A) i j a b :
  StronglySorted R l -> (i < j)%nat -> l !! i = Some a -> l !! j = Some b -> R a b.
Proof.
  intros Hs. revert i j. induction Hs as [|x l Hs IH Hall]; intros i j Hij Hi Hj.
  - discriminate.
  - destruct j as [|j]; [lia|]. cbn in Hj. destruct i as [|i].
    + cbn in Hi. injection Hi as ->.
      rewrite Forall_forall in Hall. apply Hall.
      eapply list_elem_of_lookup_2. exact Hj.
    + cbn in Hi. apply (IH i j); [lia | assumption | assumption].
Qed.

Lemma separated_strong (l : list SpatioTemporalRange) :
  Forall well_formed l -> separated l ->
  StronglySorted (fun a b => t_n a < t_0 b) l.
Proof.
  induction l as [|a l IH]; intros Hwf Hsep; [constructor|].
  apply Forall_cons_1 in Hwf as [Ha Hwf].
  apply Sorted_inv in Hsep as [Hsep Hhd].
  specialize (IH Hwf Hsep). constructor; [assumption|].
  destruct Hhd as [|b l Hab]; [constructor|].
  apply Forall_cons_1 in Hwf as [Hb Hwf].
  apply StronglySorted_inv in IH as [_ Hall].
  constructor; [assumption|].
  eapply Forall_impl; [exact Hall|]. cbn. intros c Hc.
  unfold well_formed in Hb. lia.
Qed.

Lemma separated_dissolved_ok (l : list SpatioTemporalRange) :
  Forall well_formed l -> separated l -> dissolved_ok l.
Proof.
  intros Hwf Hsep. pose proof (separated_strong l Hwf Hsep) as Hs.
  repeat split; [ | | assumption].
  - intros i j a b Hij Hi Hj [_ Hov].
    pose proof (StronglySorted_lookup _ l i j a b Hs Hij Hi Hj). cbn in *. lia.
  - unfold sorted_by_t_0. clear Hsep.
    induction Hs as [|a l Hs IH Hall]; [constructor|].
    apply Forall_cons_1 in Hwf as [Ha Hwf].
    constructor; [now apply IH|].
    eapply Forall_impl; [exact Hall|]. cbn. intros c Hc.
    unfold well_formed in Ha. lia.
Qed.

(** C2: on an input as dissolution receives it, where every range present
    satisfies [t_0 <= t_n] (the invariant of a [SpatioTemporalRange]) and
    the ranges present are in trajectory time order, one per candidate
    segment (each ends no later than the next one starts), the ranges
    [_dissolve_ranges] emits are pairwise non-overlapping, sorted by [t_0],
    each with [t_0 <= t_n]; each even ends strictly before the next one
    starts. *)
Theorem dissolve_ranges_ordered ranges :
  ranges <> [] ->
  Forall well_formed (present ranges) ->
  time_ordered (present ranges) ->
  exists out,
    _dissolve_ranges ranges = Ok out
    /\ dissolved_ok (present out)
    /\ separated (present out).
Proof.
  intros Hne Hwf Hord. rewrite (dissolve_ranges_present _ Hne).
  eexists; split; [reflexivity|].
  destruct (present ranges) as [|r rest].
  - cbn. split; [|constructor].
    repeat split; try constructor. intros i j a b _ Hi. discriminate.
  - rewrite present_some.
    apply Forall_cons_1 in Hwf as [Hr Hrest].
    destruct (dissolve_from_separated r rest Hr Hrest Hord) as [Hsep Hwf].
    split; [now apply separated_dissolved_ok | assumption].
Qed.

Lemma dissolve_ranges_ordered_witness :
  exists out,
    _dissolve_ranges [Some (range_at 0 10); None; Some (range_at 10 20);
                      Some (range_at 25 30)] = Ok out
    /\ dissolved_ok (present out)
    /\ separated (present out).
Proof.
  apply dissolve_ranges_ordered.
  - discriminate.
  - cbn. repeat constructor; unfold well_formed; sample_lia.
  - cbn. repeat constructor; sample_lia.
Defined.

End DissolveFacts.

Section SequenceFacts.

Lemma getitem_first (x : timestamp) (l : list timestamp) : getitem (x :: l) 0 = x.
Proof.
  unfold getitem. cbn [length]. rewrite Nat2Z.inj_succ.
  replace (0 <? 0) with false by reflexivity. cbv zeta.
  destruct (Z.ltb_spec 0 (Z.succ (Z.of_nat (length l)))); [reflexivity | lia].
Qed.

Lemma getitem_last (l : list timestamp) (x : timestamp) : getitem (l ++ [x]) (-1) = x.
Proof.
  unfold getitem. rewrite length_app. cbn [length].
  replace (-1 <? 0) with true by reflexivity. cbv zeta.
  replace (Z.of_nat (length l + 1) + -1) with (Z.of_nat (length l)) by lia.
  destruct (Z.leb_spec 0 (Z.of_nat (length l))); [|lia].
  destruct (Z.ltb_spec (Z.of_nat (length l)) (Z.of_nat (length l + 1))); [|lia].
  cbn [andb]. rewrite Nat2Z.id.
  rewrite app_nth2 by lia. now rewrite Nat.sub_diag.
Qed.

Lemma getitem_before_last (l : list timestamp) (y x : timestamp) :
  getitem (l ++ [y; x]) (-2) = y.
Proof.
  unfold getitem. rewrite length_app. cbn [length].
  replace (-2 <? 0) with true by reflexivity. cbv zeta.
  replace (Z.of_nat (length l + 2) + -2) with (Z.of_nat (length l)) by lia.
  destruct (Z.leb_spec 0 (Z.of_nat (length l))); [|lia].
  destruct (Z.ltb_spec (Z.of_nat (length l)) (Z.of_nat (length l + 2))); [|lia].
  cbn [andb]. rewrite Nat2Z.id.
  rewrite app_nth2 by lia. now rewrite Nat.sub_diag.
Qed.

Lemma Qltb_true_iff (a b : Q) : Qltb a b = true <-> Qlt a b.
Proof.
  unfold Qltb. rewrite negb_true_iff. split.
  - intros H. apply Qnot_le_lt. intros Hle.
    apply Qle_bool_iff in Hle. congruence.
  - intros H. destruct (Qle_bool b a) eqn:E; [|reflexivity].
    apply Qle_bool_iff in E. exfalso. exact (Qlt_not_le _ _ H E).
Qed.

End SequenceFacts.

Section StopDetectorFacts.

Import StopDetector.

Variable mrr_diagonal : list Point -> bool -> Q.
Variable traj : Trajectory.
Variable max_diameter : Q.
Variable min_duration : timedelta.

Local Abbreviation step := (step mrr_diagonal traj max_diameter min_duration).
Local Abbreviation handle_transition := (handle_transition traj min_duration).
Local Abbreviation update_is_stopped := (update_is_stopped mrr_diagonal traj max_diameter).
Local Abbreviation trim_if_moving := (trim_if_moving min_duration).
Local Abbreviation trim := (trim min_duration).
Local Abbreviation final_stops := (final_stops traj min_duration).
Local Abbreviation stationary := (stationary mrr_diagonal traj max_diameter).

(** The two window lists are popped and cleared together. *)
Lemma trim_lengths geoms times :
  length geoms = length times ->
  length (fst (trim geoms times)) = length (snd (trim geoms times)).
Proof.
  revert times. induction geoms as [|g geoms IH]; intros times Hlen.
  - exact Hlen.
  - cbn [StopDetector.trim].
    destruct (_ && _); [|exact Hlen].
    apply IH. destruct times; cbn in *; lia.
Qed.

Lemma step_lengths st row :
  length (segment_geoms st) = length (segment_times st) ->
  length (segment_geoms (step st row)) = length (segment_times (step st row)).
Proof.
  intros Hlen. unfold StopDetector.step, record_previous. cbn.
  unfold StopDetector.handle_transition, StopDetector.update_is_stopped. cbn.
  assert (length (segment_geoms (trim_if_moving (append_sample st row)))
          = length (segment_times (trim_if_moving (append_sample st row)))) as H.
  { unfold StopDetector.trim_if_moving. cbn.
    assert (length (segment_geoms st ++ [row.2]) = length (segment_times st ++ [row.1]))
      as H' by (rewrite !length_app; cbn; lia).
    destruct (negb (is_stopped st)); cbn; [|exact H'].
    pose proof (trim_lengths _ _ H') as Ht.
    destruct (trim (segment_geoms st ++ [row.2]) (segment_times st ++ [row.1])).
    exact Ht. }
  repeat match goal with |- context [if ?b then _ else _] => destruct b end;
    cbn; (reflexivity || exact H).
Qed.

(** The state in the middle of an iteration, when the transition is
    examined: the sample appended, the window trimmed, [is_stopped] set. *)
Local Abbreviation at_transition st row :=
  (update_is_stopped (trim_if_moving (append_sample st row))).

Lemma step_unfold st row :
  step st row = record_previous (handle_transition (at_transition st row)).
Proof. reflexivity. Qed.

Lemma handle_transition_emit st :
  1 < Z.of_nat (length (segment_geoms st)) ->
  is_stopped st = false -> previously_stopped st = true ->
  getitem (segment_times st) (-2) - getitem (segment_times st) 0 >= min_duration ->
  handle_transition st
  = {| detected_stops :=
         detected_stops st
         ++ [mkTemporalRangeWithTrajId (getitem (segment_times st) 0)
               (getitem (segment_times st) (-2)) (id traj)];
       segment_geoms := []; segment_times := [];
       is_stopped := false; previously_stopped := true |}.
Proof.
  intros Hlen Hs Hp Hd. unfold StopDetector.handle_transition.
  destruct (Z.ltb_spec 1 (Z.of_nat (length (segment_geoms st)))); [|lia].
  rewrite Hs, Hp. cbn [negb andb].
  destruct (Z.geb_spec (getitem (segment_times st) (-2) - getitem (segment_times st) 0)
              min_duration); [reflexivity | lia].
Qed.

Lemma handle_transition_short st :
  getitem (segment_times st) (-2) - getitem (segment_times st) 0 < min_duration ->
  handle_transition st = st.
Proof.
  intros Hd. unfold StopDetector.handle_transition.
  destruct (Z.geb_spec (getitem (segment_times st) (-2) - getitem (segment_times st) 0)
              min_duration); [lia|].
  now repeat match goal with |- context [if ?b then _ else _] => destruct b end.
Qed.

(** C6: in one iteration of the detector, when the window holds more than one
    entry and the state goes from stopped to moving, the stop from the first
    window time to the second-to-last one is appended to the detected stops
    if and only if it lasts at least [min_duration]; when it is appended the
    window is cleared, and otherwise nothing is appended and the window
    stays. *)
Theorem stop_emitted_iff_long_enough st row :
  let mid := at_transition st row in
  let segment_begin := getitem (segment_times mid) 0 in
  let segment_end := getitem (segment_times mid) (-2) in
  let stop := mkTemporalRangeWithTrajId segment_begin segment_end (id traj) in
  1 < Z.of_nat (length (segment_geoms mid)) ->
  is_stopped mid = false ->
  previously_stopped mid = true ->
  (detected_stops (step st row) = detected_stops mid ++ [stop]
   <-> segment_end - segment_begin >= min_duration)
  /\ (segment_end - segment_begin >= min_duration ->
      segment_geoms (step st row) = [] /\ segment_times (step st row) = [])
  /\ (~ segment_end - segment_begin >= min_duration ->
      detected_stops (step st row) = detected_stops mid
      /\ segment_geoms (step st row) = segment_geoms mid
      /\ segment_times (step st row) = segment_times mid).
Proof.
  intros mid segment_begin segment_end stop Hlen Hs Hp.
  rewrite step_unfold. fold mid.
  destruct (Z_lt_ge_dec (segment_end - segment_begin) min_duration) as [Hlt|Hge].
  - rewrite (handle_transition_short mid Hlt). cbn.
    split; [split|split]; try lia; try easy.
    intros Heq. apply (f_equal length) in Heq.
    rewrite length_app in Heq. cbn in Heq. lia.
  - rewrite (handle_transition_emit mid Hlen Hs Hp Hge). cbn.
    split; [split|split]; try lia; try easy.
Qed.

(** *** A trajectory at rest *)

Lemma step_resting (seen : list (timestamp * Point)) row :
  (1 <= length seen)%nat ->
  Qlt (mrr_diagonal (snd <$> (seen ++ [row])) (is_latlon traj)) max_diameter ->
  step (resting seen) row = resting (seen ++ [row]).
Proof.
  intros Hlen Hd. rewrite step_unfold.
  unfold StopDetector.trim_if_moving, StopDetector.update_is_stopped,
    StopDetector.handle_transition, record_previous, resting. cbn.
  rewrite !fmap_app. cbn [fmap list_fmap].
  rewrite length_app, length_fmap. cbn [length].
  destruct (Z.ltb_spec 1 (Z.of_nat (length seen + 1))); [|lia].
  rewrite fmap_app in Hd. apply Qltb_true_iff in Hd.
  cbn [fmap list_fmap] in Hd. rewrite Hd. reflexivity.
Qed.

Lemma fold_step_resting (rest seen : list (timestamp * Point)) :
  (1 <= length seen)%nat ->
  (forall k, (1 <= k <= length rest)%nat ->
     Qlt (mrr_diagonal (snd <$> (seen ++ take k rest)) (is_latlon traj)) max_diameter) ->
  fold_left step rest (resting seen) = resting (seen ++ rest).
Proof.
  revert seen. induction rest as [|row rest IH]; intros seen Hlen Hd.
  - now rewrite app_nil_r.
  - cbn [fold_left]. rewrite step_resting; [ | assumption | ].
    + rewrite IH.
      * now rewrite <- app_assoc.
      * rewrite length_app. lia.
      * intros k Hk. rewrite <- app_assoc. cbn [app].
        apply (Hd (S k)). cbn [length]. lia.
    + apply (Hd 1%nat). cbn [length]. lia.
Qed.

Lemma scan_stationary r1 r2 (rest : list (timestamp * Point)) :
  iterrows traj = r1 :: r2 :: rest ->
  stationary ->
  scan mrr_diagonal traj max_diameter min_duration = resting (iterrows traj).
Proof.
  intros Hrows Hstat. unfold scan. rewrite Hrows. cbn [fold_left].
  assert (step (step initial r1) r2 = resting [r1; r2]) as ->.
  { pose proof (Hstat 2%nat) as H2. rewrite Hrows in H2. cbn in H2.
    apply Qltb_true_iff in H2; [|lia]. rewrite take_0 in H2.
    assert (step initial r1
            = {| detected_stops := []; segment_geoms := [r1.2];
                 segment_times := [r1.1]; is_stopped := false;
                 previously_stopped := false |}) as -> by reflexivity.
    rewrite step_unfold.
    unfold StopDetector.trim_if_moving, StopDetector.update_is_stopped,
      StopDetector.handle_transition, record_previous, resting. cbn.
    change (Z.of_nat 2) with 2. cbn. rewrite H2. reflexivity. }
  rewrite fold_step_resting; [reflexivity | cbn; lia |].
  intros k Hk. pose proof (Hstat (2 + k)%nat) as Hs.
  rewrite Hrows in Hs. cbn in Hs. cbn. rewrite fmap_take. apply Hs. lia.
Qed.

(** C7: after the scan, when the state is still stopped and the window
    spans at least [min_duration], exactly one stop is appended, from the
    first to the last window time; so a trajectory that is at rest
    throughout, for at least [min_duration], yields exactly one stop, from
    its first to its last sample. *)
Theorem final_stop_of_resting_trajectory :
  (forall st,
     is_stopped st = true ->
     getitem (segment_times st) (-1) - getitem (segment_times st) 0 >= min_duration ->
     final_stops st
     = detected_stops st
       ++ [mkTemporalRangeWithTrajId (getitem (segment_times st) 0)
             (getitem (segment_times st) (-1)) (id traj)])
  /\ (forall t_first g_first mid t_last g_last,
        iterrows traj = (t_first, g_first) :: mid ++ [(t_last, g_last)] ->
        stationary ->
        t_last - t_first >= min_duration ->
        _process_traj mrr_diagonal traj max_diameter min_duration
        = [mkTemporalRangeWithTrajId t_first t_last (id traj)]).
Proof.
  split.
  - intros st Hs Hd. unfold StopDetector.final_stops. rewrite Hs. cbn [andb].
    destruct (Z.geb_spec (getitem (segment_times st) (-1) - getitem (segment_times st) 0)
                min_duration); [reflexivity | lia].
  - intros t_first g_first mid t_last g_last Hrows Hstat Hd.
    unfold _process_traj.
    assert (exists r2 rest, iterrows traj = (t_first, g_first) :: r2 :: rest)
      as (r2 & rest & Hrows').
    { rewrite Hrows. destruct mid as [|r2 mid]; cbn; eauto. }
    rewrite (scan_stationary _ _ _ Hrows' Hstat).
    unfold StopDetector.final_stops, resting. cbn.
    rewrite Hrows. rewrite fmap_cons, fmap_app. cbn [fmap list_fmap fst].
    rewrite getitem_first.
    rewrite app_comm_cons, getitem_last.
    destruct (Z.geb_spec (t_last - t_first) min_duration); [reflexivity | lia].
Qed.

End StopDetectorFacts.

Section StopDetectorExamples.

Import StopDetector.

Lemma stop_emitted_iff_long_enough_witness :
  detected_stops
    (step line_diagonal sample_traj 1%Q (timedelta_seconds 15)
       sample_stopped sample_far_row)
  = [mkTemporalRangeWithTrajId 0 (timedelta_seconds 20) "traj"]
  /\ segment_geoms
       (step line_diagonal sample_traj 1%Q (timedelta_seconds 15)
          sample_stopped sample_far_row) = [].
Proof.
  pose proof (stop_emitted_iff_long_enough line_diagonal sample_traj 1%Q
                (timedelta_seconds 15) sample_stopped sample_far_row) as H.
  cbv zeta in H.
  destruct H as (Hiff & Hclear & _).
  - vm_compute. reflexivity.
  - vm_compute. reflexivity.
  - vm_compute. reflexivity.
  - split.
    + apply Hiff. vm_compute. discriminate.
    + apply Hclear. vm_compute. discriminate.
Defined.

Lemma final_stop_of_resting_trajectory_witness :
  _process_traj line_diagonal sample_traj 1%Q (timedelta_seconds 15)
  = [mkTemporalRangeWithTrajId 0 (timedelta_seconds 20) "traj"].
Proof.
  apply (proj2 (final_stop_of_resting_trajectory line_diagonal sample_traj 1%Q
                  (timedelta_seconds 15))
           0 origin [(timedelta_seconds 10, origin)] (timedelta_seconds 20) origin).
  - reflexivity.
  - intros k Hk. cbn in Hk.
    assert (k = 2 \/ k = 3)%nat as [-> | ->] by lia; vm_compute; reflexivity.
  - vm_compute. discriminate.
Defined.

End StopDetectorExamples.

Section InterpolationFacts.

Import Interpolation.

Variable project : LineString -> Point -> Q.
Variable length : LineString -> Q.


End InterpolationFacts.

Section InterpolationExamples.

Import Interpolation WestEast.



End InterpolationExamples.

Section StoreFacts.

Import Frames.

Lemma bind_unfold {A B} (m : M A) (f : A -> M B) (s : store) :
  (m ≫= f) s
  = match m s with
    | (Ok a, s') => f a s'
    | (Raise e, s') => (Raise e, s')
    end.
Proof. reflexivity. Qed.

Lemma bind_Ok_inv {A B} (m : M A) (f : A -> M B) (s s' : store) (b : B) :
  (m ≫= f) s = (Ok b, s') ->
  exists a s1, m s = (Ok a, s1) /\ f a s1 = (Ok b, s').
Proof.
  rewrite bind_unfold. destruct (m s) as [[a|e] s1]; [eauto | discriminate].
Qed.

Lemma read_Some (l : loc) (s : store) (d : DataFrame) :
  s !! l = Some d -> read l s = (Ok d, s).
Proof. intros H. unfold read. now rewrite H. Qed.

Lemma read_Ok_inv (l : loc) (s s' : store) (d : DataFrame) :
  read l s = (Ok d, s') -> s' = s /\ s !! l = Some d.
Proof.
  unfold read. destruct (s !! l); intros H; [|discriminate].
  now injection H as -> ->.
Qed.



Lemma setitem_Some (l : loc) (c : string) (vals : list value) (s : store)
  (d : DataFrame) :
  s !! l = Some d ->
  length vals = length (index d) ->
  setitem l c vals s
  = (Ok tt, <[l := {| index := index d; columns := <[c := vals]> (columns d) |}]> s).
Proof.
  intros H Hlen. unfold setitem. rewrite bind_unfold, (read_Some _ _ _ H).
  rewrite Hlen, Nat.eqb_refl. reflexivity.
Qed.

End StoreFacts.

Section IntersectionFacts.

Import Frames Overlay.

Context `{Collaborators}.

Implicit Types (s : store) (l : loc) (d : DataFrame).
Implicit Types (properties : gmap string property) (kvs : list (string * value)).
Implicit Types (pairs : list (string * property)).

(** The column that a property is copied to. *)
Local Abbreviation attribute k := ("intersecting_" +:+ k).











End IntersectionFacts.

Section PointBasedFacts.

Import Frames Overlay.

Context `{Collaborators}.

(** The point-based scan writes its three working columns into the table
    of the trajectory it is given. *)
Lemma pointbased_writes_columns (traj : Trajectory) (polygon : Polygon)
  (s : store) (d : DataFrame) (geometry : list value) :
  s !! df traj = Some d ->
  columns d !! "geometry" = Some geometry ->
  length geometry = length (index d) ->
  exists ranges flags,
    flags = (fun v => cell_intersects v polygon) <$> geometry
    /\ _determine_time_ranges_pointbased traj polygon s
       = (Ok ranges,
          <[df traj :=
              {| index := index d;
                 columns :=
                   <["segment" := VInt <$> run_numbers None 0 flags]>
                     (<["intersects" := VBool <$> flags]>
                        (<["t" := VTime <$> index d]> (columns d))) |}]> s).
Proof.
  intros Hd Hgeom Hlen.
  assert (df traj < length s)%nat as Hlt by (eapply lookup_lt_Some; exact Hd).
  assert (forall (b : option bool) n (flags : list bool),
            length (run_numbers b n flags) = length flags) as Hruns.
  { intros b n flags. revert b n.
    induction flags as [|x flags IH]; intros b n; cbn; [reflexivity|].
    now rewrite IH. }
  eexists. eexists. split; [reflexivity|].
  unfold _determine_time_ranges_pointbased. cbv zeta.
  rewrite bind_unfold, (read_Some _ _ _ Hd).
  rewrite bind_unfold, (setitem_Some _ _ _ _ _ Hd) by apply length_fmap.
  rewrite bind_unfold.
  erewrite read_Some by (apply list_lookup_insert_eq; exact Hlt).
  cbn [columns index].
  rewrite lookup_insert_ne by discriminate. rewrite Hgeom.
  rewrite bind_unfold. unfold mret at 1, M_ret at 1.
  rewrite bind_unfold.
  erewrite setitem_Some;
    [ | apply list_lookup_insert_eq; exact Hlt
      | cbn [index]; rewrite !length_fmap; exact Hlen ].
  rewrite list_insert_insert_eq. cbn [columns index].
  rewrite bind_unfold.
  erewrite setitem_Some;
    [ | apply list_lookup_insert_eq; exact Hlt
      | cbn [index]; rewrite length_fmap, Hruns, length_fmap; exact Hlen ].
  rewrite list_insert_insert_eq. cbn [columns index].
  rewrite bind_unfold.
  erewrite read_Some by (apply list_lookup_insert_eq; exact Hlt).
  reflexivity.
Qed.

(** The sibling path copies first: [create_entry_and_exit_points] leaves
    every table of the store it was given as it was, the trajectory's
    included, and builds its result in new tables. *)
Lemma create_entry_and_exit_points_keeps_tables (traj : Trajectory)
  (range : Range) (s s' : store) (l : loc) :
  create_entry_and_exit_points traj range s = (Ok l, s') ->
  forall l0, (l0 < length s)%nat -> s' !! l0 = s !! l0.
Proof.
  unfold create_entry_and_exit_points. intros Hrun l0 Hl0.
  destruct range as [r|range|]; try discriminate.
  apply bind_Ok_inv in Hrun as (d & s1 & Hread & Hrun).
  apply read_Ok_inv in Hread as [-> Hd].
  apply bind_Ok_inv in Hrun as (i0 & s1 & Hi0 & Hrun).
  unfold lift in Hi0. injection Hi0 as _ <-.
  apply bind_Ok_inv in Hrun as (i_n & s1 & Hin & Hrun).
  unfold lift in Hin. injection Hin as _ <-.
  apply bind_Ok_inv in Hrun as (temp_df & s1 & Hcopy & Hrun).
  unfold copy in Hcopy.
  apply bind_Ok_inv in Hcopy as (d' & s2 & Hread & Halloc).
  apply read_Ok_inv in Hread as [-> _].
  unfold alloc in Halloc. injection Halloc as <- <-.
  apply bind_Ok_inv in Hrun as (d1 & s1 & Hread & Hrun).
  apply read_Ok_inv in Hread as [-> _].
  apply bind_Ok_inv in Hrun as ([] & s1 & Hwrite & Hrun).
  unfold write in Hwrite. injection Hwrite as <-.
  apply bind_Ok_inv in Hrun as (d2 & s1 & Hread & Hrun).
  apply read_Ok_inv in Hread as [-> _].
  apply bind_Ok_inv in Hrun as ([] & s1 & Hwrite & Hrun).
  unfold write in Hwrite. injection Hwrite as <-.
  apply bind_Ok_inv in Hrun as (d3 & s1 & Hread & Hrun).
  apply read_Ok_inv in Hread as [-> _].
  unfold alloc in Hrun. injection Hrun as _ <-.
  rewrite lookup_app_l by (rewrite !length_insert, length_app; lia).
  rewrite !list_lookup_insert_ne by lia.
  now rewrite lookup_app_l by lia.
Qed.

End PointBasedFacts.

Section OverlayExamples.

Import Frames Overlay WestEastOverlay.




(** C4 fails on the code: a point-based [clip] of the sample trajectory
    leaves the columns [t], [intersects] and [segment] in the table of the
    trajectory it was given, which held the geometry column alone; a
    line-based [clip] of the same trajectory leaves that table as it was. *)
Theorem clip_pointbased_changes_input_table :
  sample_store !! df sample_traj = Some sample_table
  /\ (exists segments s' table',
        clip sample_traj sample_band true sample_store = (Ok segments, s')
        /\ s' !! df sample_traj = Some table'
        /\ table' <> sample_table
        /\ index table' = index sample_table
        /\ columns table'
           = <["segment" := [VInt 1; VInt 2; VInt 2; VInt 3]]>
               (<["intersects" := [VBool false; VBool true; VBool true; VBool false]]>
                  (<["t" := VTime <$> index sample_table]> (columns sample_table))))
  /\ (exists segments s',
        clip sample_traj sample_band false sample_store = (Ok segments, s')
        /\ s' !! df sample_traj = Some sample_table).
Proof.
  split; [reflexivity|]. split.
  - eexists. eexists. eexists.
    split; [vm_compute; reflexivity|].
    split; [vm_compute; reflexivity|].
    split; [|split; vm_compute; reflexivity].
    intros Heq. apply (f_equal (fun d => columns d !! "t")) in Heq.
    vm_compute in Heq. discriminate.
  - eexists. eexists.
    split; vm_compute; reflexivity.
Qed.

End OverlayExamples.

(* ===================================================================== *)
(** * Further properties of the two files *)
(* ===================================================================== *)

Section ToleranceFacts.

Import Stamps.

(** X1: [is_equal] is no equivalence.  On [datetime] values it is reflexive
    and symmetric (two values compare the same way in both orders, raising
    included), and it is not transitive: instants 6 ms apart are equal
    pairwise along a chain whose ends, 12 ms apart, are not.  On
    [pd.Timestamp] values it is not symmetric, since only the nanoseconds of
    the second argument are dropped, and not reflexive, since an aware one
    compared with itself raises. *)
Theorem is_equal_not_an_equivalence :
  (forall us tz, Stamps.is_equal (Datetime us tz) (Datetime us tz) = Ok true)
  /\ (forall us1 tz1 us2 tz2,
        Stamps.is_equal (Datetime us1 tz1) (Datetime us2 tz2)
        = Stamps.is_equal (Datetime us2 tz2) (Datetime us1 tz1))
  /\ ~ (forall a b c : Z,
          Stamps.is_equal (Datetime a None) (Datetime b None) = Ok true ->
          Stamps.is_equal (Datetime b None) (Datetime c None) = Ok true ->
          Stamps.is_equal (Datetime a None) (Datetime c None) = Ok true)
  /\ (exists t1 t2,
        Stamps.is_equal t1 t2 = Ok false /\ Stamps.is_equal t2 t1 = Ok true)
  /\ (forall ns o,
        Stamps.is_equal (Timestamp ns (Some o)) (Timestamp ns (Some o))
        = Raise TypeError).
Proof.
  split; [|split; [|split; [|split]]].
  - intros us [o|]; unfold Stamps.is_equal, sub; cbn [wall_ns tzinfo_of];
      do 2 f_equal.
    + replace (us * 1000 - o - (us * 1000 - o)) with 0 by lia. reflexivity.
    + now rewrite Z.sub_diag.
  - intros us1 [o1|] us2 [o2|]; unfold Stamps.is_equal, sub;
      cbn [wall_ns tzinfo_of]; try reflexivity; do 2 f_equal.
    + replace (us2 * 1000 - o2 - (us1 * 1000 - o1))
        with (- (us1 * 1000 - o1 - (us2 * 1000 - o2))) by lia.
      now rewrite Z.abs_opp.
    + replace (us2 * 1000 - us1 * 1000) with (- (us1 * 1000 - us2 * 1000)) by lia.
      now rewrite Z.abs_opp.
  - intros Htrans.
    specialize (Htrans 0 6000 12000 eq_refl eq_refl). discriminate Htrans.
  - exists (Timestamp 0 None), (Timestamp (-9999500) None). split; reflexivity.
  - reflexivity.
Qed.

End ToleranceFacts.

Section InterpolationBounds.

Import Interpolation.

Variable project : LineString -> Point -> Q.
Variable length : LineString -> Q.

Lemma snap_fixed (x target : timestamp) :
  let y := if is_equal x target then target else x in
  is_equal y target = true -> y = target.
Proof.
  cbv zeta. destruct (is_equal x target) eqn:E; [reflexivity|].
  intros H. congruence.
Qed.

(** X2: a range comes only from a [LineString] intersection, whose first and
    last coordinates are its two points; and its times are snapped: an end
    time within 10 ms of the time of the segment's end is that time, a start
    time within 10 ms of the time of the segment's start is that time. *)
Theorem spatiotemporal_ref_is_snapped row r :
  _get_spatiotemporal_ref project length row = Ok (Some r) ->
  (exists coords,
     row_spatial_intersection row = GLineString coords
     /\ head coords = Some (pt_0 r) /\ last coords = Some (pt_n r))
  /\ (is_equal (t_n r) (row_t row) = true -> t_n r = row_t row)
  /\ (is_equal (t_0 r) (row_prev_t row) = true -> t_0 r = row_prev_t row).
Proof.
  unfold _get_spatiotemporal_ref.
  destruct (row_spatial_intersection row) as [coords| |]; try discriminate.
  destruct (head coords) as [pt0|] eqn:Hhd; [|discriminate].
  destruct (last coords) as [ptn|] eqn:Hlast; [|discriminate].
  cbv zeta. destruct (Qeq_bool _ 0); [discriminate|].
  destruct (point_eqb _ _); intros H; injection H as <-; cbn [pt_0 pt_n t_0 t_n];
    (split; [exists coords; auto | split; apply snap_fixed]).
Qed.




End InterpolationBounds.

Section InterpolationBoundsExamples.

Import Interpolation WestEast.

Lemma spatiotemporal_ref_is_snapped_witness :
  let r := mkSpatioTemporalRange (5%Q, 0%Q) (Double.literal 5.000000005%Q, 0%Q)
             (timedelta_seconds 5) (timedelta_seconds 5) in
  (exists coords,
     row_spatial_intersection sample_row_sliver = GLineString coords
     /\ head coords = Some (pt_0 r) /\ last coords = Some (pt_n r))
  /\ (is_equal (t_n r) (row_t sample_row_sliver) = true
      -> t_n r = row_t sample_row_sliver)
  /\ (is_equal (t_0 r) (row_prev_t sample_row_sliver) = true
      -> t_0 r = row_prev_t sample_row_sliver).
Proof.
  intros r.
  apply (spatiotemporal_ref_is_snapped project length sample_row_sliver r).
  vm_compute. reflexivity.
Defined.


End InterpolationBoundsExamples.

Section DissolveFurther.

Import Dissolve.

Implicit Types (r cur : SpatioTemporalRange).
Implicit Types (ranges : list (option SpatioTemporalRange)).
Implicit Types (rest : list SpatioTemporalRange).

(** No emitted range touches the one emitted after it. *)
Local Abbreviation untouching := (Sorted (fun a b => touches a b = false)).

Lemma touches_ext a a' b b' :
  t_n a = t_n a' -> t_0 b = t_0 b' -> touches a b = touches a' b'.
Proof. unfold touches. now intros -> ->. Qed.

Lemma dissolve_from_starts cur rest :
  exists c tl, dissolve_from cur rest = c :: tl
               /\ t_0 c = t_0 cur /\ pt_0 c = pt_0 cur.
Proof.
  revert cur. induction rest as [|r rest IH]; intros cur; cbn [dissolve_from].
  - now exists cur, [].
  - destruct (touches cur r).
    + destruct (IH (extend cur r)) as (c & tl & -> & Ht & Hp). now exists c, tl.
    + now exists cur, (dissolve_from r rest).
Qed.

Lemma dissolve_from_untouching cur rest : untouching (dissolve_from cur rest).
Proof.
  revert cur. induction rest as [|r rest IH]; intros cur; cbn [dissolve_from].
  - repeat constructor.
  - destruct (touches cur r) eqn:E; [apply IH|].
    constructor; [apply IH|].
    destruct (dissolve_from_starts r rest) as (c & tl & -> & Ht & _).
    constructor. now rewrite (touches_ext cur cur c r).
Qed.

Lemma dissolve_from_fixed cur rest :
  untouching (cur :: rest) -> dissolve_from cur rest = cur :: rest.
Proof.
  revert cur. induction rest as [|r rest IH]; intros cur Hs; [reflexivity|].
  apply Sorted_inv in Hs as [Hs Hhd]. apply HdRel_inv in Hhd.
  cbn [dissolve_from]. rewrite Hhd. f_equal. now apply IH.
Qed.

(** X4: dissolution is idempotent: what [_dissolve_ranges] returns, given
    back to it, is returned unchanged. *)
Theorem dissolve_ranges_idempotent ranges out :
  _dissolve_ranges ranges = Ok out -> _dissolve_ranges out = Ok out.
Proof.
  intros Hrun.
  assert (ranges <> []) as Hne by (intros ->; discriminate).
  rewrite (dissolve_ranges_present _ Hne) in Hrun.
  destruct (present ranges) as [|r rest]; injection Hrun as <-; [reflexivity|].
  pose proof (dissolve_from_untouching r rest) as Hs.
  destruct (dissolve_from r rest) as [|c tl] eqn:E.
  { destruct (dissolve_from_starts r rest) as (c & tl & Hc & _). congruence. }
  rewrite dissolve_ranges_present by discriminate.
  rewrite present_some. now rewrite dissolve_from_fixed.
Qed.

(** X5: absent entries change nothing: when some range is present, the
    sequence dissolves as the sequence of its present ranges does, so that
    two ranges merge across the absent entries between them. *)
Theorem dissolve_ranges_skips_absent ranges :
  present ranges <> [] ->
  _dissolve_ranges ranges = _dissolve_ranges (Some <$> present ranges).
Proof.
  intros Hne.
  assert (ranges <> []) as Hr by (intros ->; now apply Hne).
  assert (Some <$> present ranges <> []) as Hp.
  { destruct (present ranges); [contradiction | discriminate]. }
  rewrite (dissolve_ranges_present _ Hr), (dissolve_ranges_present _ Hp).
  now rewrite present_some.
Qed.

Lemma dissolve_ranges_skips_absent_witness :
  _dissolve_ranges [None; Some (range_at 0 10); None; None; Some (range_at 10 20)]
  = _dissolve_ranges (Some <$> [range_at 0 10; range_at 10 20]).
Proof.
  apply (dissolve_ranges_skips_absent
           [None; Some (range_at 0 10); None; None; Some (range_at 10 20)]).
  discriminate.
Defined.

Lemma dissolve_from_length cur rest :
  (length (dissolve_from cur rest) <= S (length rest))%nat.
Proof.
  revert cur. induction rest as [|r rest IH]; intros cur; cbn [dissolve_from length].
  - lia.
  - destruct (touches cur r); cbn [length].
    + specialize (IH (extend cur r)). lia.
    + specialize (IH r). lia.
Qed.

Lemma dissolve_from_ends cur rest :
  exists e, last (dissolve_from cur rest) = Some e
            /\ t_n e = t_n (default cur (last rest))
            /\ pt_n e = pt_n (default cur (last rest)).
Proof.
  revert cur. induction rest as [|r rest IH]; intros cur; cbn [dissolve_from].
  - now exists cur.
  - assert (forall c, t_n c = t_n r -> pt_n c = pt_n r ->
              t_n (default c (last rest)) = t_n (default cur (last (r :: rest)))
              /\ pt_n (default c (last rest)) = pt_n (default cur (last (r :: rest))))
      as Hlast.
    { intros c Ht Hp. rewrite last_cons. destruct (last rest); cbn; auto. }
    destruct (touches cur r).
    + destruct (IH (extend cur r)) as (e & He & Ht & Hp).
      exists e. destruct (Hlast (extend cur r) eq_refl eq_refl) as [<- <-]. auto.
    + destruct (IH r) as (e & He & Ht & Hp).
      destruct (dissolve_from_starts r rest) as (c & tl & Hc & _).
      exists e. rewrite Hc in He |- *. rewrite last_cons, He.
      destruct (Hlast r eq_refl eq_refl) as [<- <-]. auto.
Qed.

Lemma dissolve_from_endpoints cur rest :
  Forall (fun e =>
            (exists a, a ∈ cur :: rest /\ t_0 e = t_0 a /\ pt_0 e = pt_0 a)
            /\ (exists b, b ∈ cur :: rest /\ t_n e = t_n b /\ pt_n e = pt_n b))
         (dissolve_from cur rest).
Proof.
  revert cur. induction rest as [|r rest IH]; intros cur; cbn [dissolve_from].
  - repeat constructor; exists cur; split; auto; apply list_elem_of_here.
  - destruct (touches cur r).
    + eapply Forall_impl; [apply (IH (extend cur r))|].
      intros e [(a & Ha & Hat & Hap) (b & Hb & Hbt & Hbp)]. split.
      * apply elem_of_cons in Ha as [->|Ha].
        -- exists cur. split; [apply list_elem_of_here | auto].
        -- exists a. split; [|auto]. now do 2 apply list_elem_of_further.
      * apply elem_of_cons in Hb as [->|Hb].
        -- exists r. split; [|auto]. apply list_elem_of_further, list_elem_of_here.
        -- exists b. split; [|auto]. now do 2 apply list_elem_of_further.
    + constructor.
      * split; exists cur; (split; [apply list_elem_of_here | auto]).
      * eapply Forall_impl; [apply (IH r)|].
        intros e [(a & Ha & Hat) (b & Hb & Hbt)].
        split; [exists a | exists b]; (split; [now apply list_elem_of_further | auto]).
Qed.

(** X6: when ranges are present in the input, [_dissolve_ranges] returns
    ranges only, no more of them than were present; the first one starts
    where the first present range starts, the last one ends where the last
    present range ends, and every one starts at the start of a present range
    and ends at the end of one: no time and no point is made up. *)
Theorem dissolve_ranges_endpoints ranges first rest :
  present ranges = first :: rest ->
  exists e tl,
    _dissolve_ranges ranges = Ok (Some <$> (e :: tl))
    /\ (length (e :: tl) <= length (first :: rest))%nat
    /\ (t_0 e = t_0 first /\ pt_0 e = pt_0 first)
    /\ (exists z, last (e :: tl) = Some z
                  /\ t_n z = t_n (default first (last rest))
                  /\ pt_n z = pt_n (default first (last rest)))
    /\ Forall (fun x =>
                 (exists a, a ∈ first :: rest /\ t_0 x = t_0 a /\ pt_0 x = pt_0 a)
                 /\ (exists b, b ∈ first :: rest /\ t_n x = t_n b /\ pt_n x = pt_n b))
              (e :: tl).
Proof.
  intros Hp.
  assert (ranges <> []) as Hne by (intros ->; discriminate).
  rewrite (dissolve_ranges_present _ Hne), Hp.
  destruct (dissolve_from_starts first rest) as (e & tl & Heq & Ht & Hpt).
  exists e, tl. rewrite <- Heq.
  split; [reflexivity|]. split; [apply dissolve_from_length|].
  split; [auto|]. split; [apply dissolve_from_ends | apply dissolve_from_endpoints].
Qed.

Lemma dissolve_ranges_endpoints_witness :
  exists e tl,
    _dissolve_ranges [Some (range_at 0 10); None; Some (range_at 10 20);
                      Some (range_at 25 30)] = Ok (Some <$> (e :: tl))
    /\ (length (e :: tl) <= 3)%nat
    /\ (t_0 e = seconds 0 /\ pt_0 e = origin)
    /\ (exists z, last (e :: tl) = Some z
                  /\ t_n z = seconds 30 /\ pt_n z = origin)
    /\ Forall (fun x =>
                 (exists a, a ∈ [range_at 0 10; range_at 10 20; range_at 25 30]
                            /\ t_0 x = t_0 a /\ pt_0 x = pt_0 a)
                 /\ (exists b, b ∈ [range_at 0 10; range_at 10 20; range_at 25 30]
                               /\ t_n x = t_n b /\ pt_n x = pt_n b))
              (e :: tl).
Proof.
  apply (dissolve_ranges_endpoints
           [Some (range_at 0 10); None; Some (range_at 10 20); Some (range_at 25 30)]
           (range_at 0 10) [range_at 10 20; range_at 25 30]).
  reflexivity.
Defined.

End DissolveFurther.

Section StopDetectorFurther.

Import StopDetector StopDetectorInvariants.

Variable mrr_diagonal : list Point -> bool -> Q.
Variable traj : Trajectory.
Variable max_diameter : Q.
Variable min_duration : timedelta.

Local Abbreviation step := (step mrr_diagonal traj max_diameter min_duration).
Local Abbreviation handle_transition := (handle_transition traj min_duration).
Local Abbreviation update_is_stopped := (update_is_stopped mrr_diagonal traj max_diameter).
Local Abbreviation trim_if_moving := (trim_if_moving min_duration).
Local Abbreviation trim := (trim min_duration).
Local Abbreviation final_stops := (final_stops traj min_duration).
Local Abbreviation scan := (scan mrr_diagonal traj max_diameter min_duration).
Local Abbreviation _process_traj :=
  (_process_traj mrr_diagonal traj max_diameter min_duration).
Local Abbreviation mid st row :=
  (update_is_stopped (trim_if_moving (append_sample st row))).

Lemma step_is (st : state) row :
  step st row = record_previous (handle_transition (mid st row)).
Proof. reflexivity. Qed.

Lemma mid_lengths st row :
  length (segment_geoms st) = length (segment_times st) ->
  length (segment_geoms (mid st row)) = length (segment_times (mid st row)).
Proof.
  intros Hlen. unfold StopDetector.update_is_stopped. cbn [segment_geoms segment_times].
  unfold StopDetector.trim_if_moving. cbn.
  assert (length (segment_geoms st ++ [row.2]) = length (segment_times st ++ [row.1]))
    as H' by (rewrite !length_app; cbn; lia).
  destruct (negb (is_stopped st)); cbn; [|exact H'].
  pose proof (trim_lengths min_duration _ _ H') as Ht.
  destruct (trim (segment_geoms st ++ [row.2]) (segment_times st ++ [row.1])).
  exact Ht.
Qed.

Lemma mid_stopped_long st row :
  is_stopped (mid st row) = true ->
  (2 <= length (segment_geoms (mid st row)))%nat.
Proof.
  unfold StopDetector.update_is_stopped. cbn [is_stopped segment_geoms].
  intros H. apply andb_true_iff in H as [H _]. apply Z.ltb_lt in H. lia.
Qed.

(** What [handle_transition] does, by cases. *)
Lemma handle_transition_cases st :
  handle_transition st = st
  \/ (is_stopped st = false /\ previously_stopped st = true
      /\ 1 < Z.of_nat (length (segment_geoms st))
      /\ getitem (segment_times st) (-2) - getitem (segment_times st) 0 >= min_duration
      /\ handle_transition st
         = {| detected_stops :=
                detected_stops st
                ++ [mkTemporalRangeWithTrajId (getitem (segment_times st) 0)
                      (getitem (segment_times st) (-2)) (id traj)];
              segment_geoms := []; segment_times := [];
              is_stopped := false; previously_stopped := true |}).
Proof.
  unfold StopDetector.handle_transition.
  destruct (Z.ltb_spec 1 (Z.of_nat (length (segment_geoms st)))); [|now left].
  destruct (is_stopped st) eqn:Hs; [now left|].
  destruct (previously_stopped st) eqn:Hp; [|now left]. cbn [negb andb].
  destruct (Z.geb_spec (getitem (segment_times st) (-2) - getitem (segment_times st) 0)
              min_duration); [|now left].
  right. repeat split; try assumption; lia.
Qed.

Lemma step_window_ok st row : window_ok st -> window_ok (step st row).
Proof.
  intros (Hlen & Hprev & Hstop). rewrite step_is.
  pose proof (mid_lengths st row Hlen) as Hmid.
  pose proof (mid_stopped_long st row) as Hlong.
  destruct (handle_transition_cases (mid st row)) as [->|(Hs & _ & _ & _ & ->)].
  - unfold window_ok, record_previous. cbn [segment_geoms segment_times
      is_stopped previously_stopped].
    split; [exact Hmid|]. split; [reflexivity|].
    intros H. rewrite <- Hmid. now apply Hlong.
  - unfold window_ok, record_previous. cbn. repeat split. discriminate.
Qed.

Lemma fold_step_window_ok rows st :
  window_ok st -> window_ok (fold_left step rows st).
Proof.
  revert st. induction rows as [|row rows IH]; intros st H; [exact H|].
  cbn [fold_left]. apply IH. now apply step_window_ok.
Qed.

(** X7: between any two iterations of [_process_traj] the two window lists
    have the same length, [previously_stopped] equals [is_stopped], and a
    stopped state holds at least two samples: the reads [segment_times[0]],
    [segment_times[-1]] and [segment_times[-2]] are always in range. *)
Theorem process_traj_window_invariant (rows : list (timestamp * Point)) :
  window_ok (fold_left step rows initial).
Proof.
  apply fold_step_window_ok. repeat split. discriminate.
Qed.

Lemma mid_detected st row : detected_stops (mid st row) = detected_stops st.
Proof.
  unfold StopDetector.update_is_stopped, StopDetector.trim_if_moving.
  cbn. destruct (negb (is_stopped st)); [|reflexivity].
  now destruct (trim _ _).
Qed.

Lemma mid_previously st row :
  previously_stopped (mid st row) = previously_stopped st.
Proof.
  unfold StopDetector.update_is_stopped, StopDetector.trim_if_moving.
  cbn. destruct (negb (is_stopped st)); [|reflexivity].
  now destruct (trim _ _).
Qed.

Lemma step_long_enough st row :
  Forall (long_enough traj min_duration) (detected_stops st) ->
  Forall (long_enough traj min_duration) (detected_stops (step st row)).
Proof.
  intros H. rewrite step_is. rewrite <- (mid_detected st row) in H.
  destruct (handle_transition_cases (mid st row)) as [->|(_ & _ & _ & Hd & ->)].
  - exact H.
  - cbn [record_previous detected_stops]. apply Forall_app. split; [exact H|].
    repeat constructor; assumption.
Qed.

Lemma fold_step_long_enough rows st :
  Forall (long_enough traj min_duration) (detected_stops st) ->
  Forall (long_enough traj min_duration) (detected_stops (fold_left step rows st)).
Proof.
  revert st. induction rows as [|row rows IH]; intros st H; [exact H|].
  cbn [fold_left]. apply IH. now apply step_long_enough.
Qed.

Lemma process_traj_long_enough :
  Forall (long_enough traj min_duration) _process_traj.
Proof.
  unfold StopDetector._process_traj, StopDetector.final_stops, StopDetector.scan.
  pose proof (fold_step_long_enough (iterrows traj) initial
                (List.Forall_nil _)) as H.
  destruct (is_stopped _ && _) eqn:E; [|exact H].
  apply andb_true_iff in E as [_ E]. apply Z.geb_le in E.
  apply Forall_app. split; [exact H|].
  repeat constructor; cbn; lia.
Qed.

(** X9: a trajectory of no sample or of one sample has no stop. *)
Theorem process_traj_too_short :
  (length (iterrows traj) <= 1)%nat -> _process_traj = [].
Proof.
  intros Hlen. unfold StopDetector._process_traj, StopDetector.scan.
  destruct (iterrows traj) as [|row [|row' rows]]; [reflexivity | reflexivity |].
  cbn in Hlen. lia.
Qed.

Lemma trim_geoms_drop geoms (times : list timestamp) :
  exists n, fst (trim geoms times) = drop n geoms.
Proof.
  revert times. induction geoms as [|g geoms IH]; intros times.
  - now exists 0%nat.
  - cbn [StopDetector.trim]. destruct (_ && _); [|now exists 0%nat].
    destruct (IH (tail times)) as (n & Hn). now exists (S n).
Qed.

(** While nothing is compact the detector stays moving, detects nothing,
    and its window is a stretch of consecutive samples ending at the last
    one seen. *)
Lemma step_moving (seen : list Point) st row :
  (forall i, (2 <= length (drop i (seen ++ [snd row])))%nat ->
             Qle max_diameter
               (mrr_diagonal (drop i (seen ++ [snd row])) (is_latlon traj))) ->
  is_stopped st = false -> previously_stopped st = false ->
  (exists i, segment_geoms st = drop i seen) ->
  is_stopped (step st row) = false
  /\ previously_stopped (step st row) = false
  /\ detected_stops (step st row) = detected_stops st
  /\ exists i, segment_geoms (step st row) = drop i (seen ++ [snd row]).
Proof.
  intros Hwide Hs Hp (i & Hi). rewrite step_is.
  assert (exists i', segment_geoms (mid st row) = drop i' (seen ++ [snd row]))
    as (i' & Hi').
  { unfold StopDetector.update_is_stopped, StopDetector.trim_if_moving.
    cbn [segment_geoms append_sample is_stopped segment_times]. rewrite Hs.
    cbn [negb].
    destruct (trim_geoms_drop (segment_geoms st ++ [snd row])
                (segment_times st ++ [fst row])) as (n & Hn).
    destruct (trim _ _) as [geoms times]. cbn [fst segment_geoms] in *.
    rewrite Hn, Hi.
    destruct (decide (i <= length seen)%nat) as [Hle|Hgt].
    - exists (i + n)%nat. rewrite <- drop_app_le by exact Hle.
      now rewrite drop_drop.
    - exists (length seen + n)%nat.
      rewrite (drop_ge seen i) by lia. rewrite <- drop_drop.
      rewrite drop_app_length. reflexivity. }
  assert (is_stopped (mid st row) = false) as Hmid.
  { pose proof Hi' as Hwin.
    unfold StopDetector.update_is_stopped in Hwin |- *.
    cbn [segment_geoms is_stopped] in Hwin |- *.
    destruct (Z.ltb_spec 1 (Z.of_nat (length (segment_geoms
                (trim_if_moving (append_sample st row)))))) as [Hlong|_];
      [|reflexivity].
    cbn [andb]. unfold Qltb. apply negb_false_iff, Qle_bool_iff.
    rewrite Hwin. apply Hwide. rewrite <- Hwin. lia. }
  assert (previously_stopped (mid st row) = false) as Hprev
    by now rewrite mid_previously.
  pose proof (mid_detected st row) as Hdet.
  destruct (handle_transition_cases (mid st row)) as [->|(_ & Hp' & _)];
    [|congruence].
  cbn [record_previous is_stopped previously_stopped detected_stops segment_geoms].
  eauto.
Qed.

(** X10: when no stretch of two or more consecutive samples of the
    trajectory is compact, the diagonal of each being at least
    [max_diameter], no stop is detected. *)
Theorem process_traj_never_compact :
  never_compact mrr_diagonal traj max_diameter ->
  _process_traj = [].
Proof.
  intros Hwide. unfold StopDetector._process_traj, StopDetector.scan.
  assert (forall rest seen st,
            iterrows traj = seen ++ rest ->
            is_stopped st = false -> previously_stopped st = false ->
            (exists i, segment_geoms st = drop i (snd <$> seen)) ->
            is_stopped (fold_left step rest st) = false
            /\ detected_stops (fold_left step rest st) = detected_stops st) as H.
  { induction rest as [|row rest IH]; intros seen st Hrows Hs Hp Hwin; [auto|].
    cbn [fold_left].
    destruct (step_moving (snd <$> seen) st row) as (Hs' & Hp' & Hd & Hwin');
      try assumption.
    { intros i Hlen.
      assert (snd <$> seen ++ [row]
              = take (S (length seen)) (snd <$> iterrows traj)) as Heq.
      { rewrite Hrows, <- fmap_take.
        replace (seen ++ row :: rest) with ((seen ++ [row]) ++ rest)
          by now rewrite <- app_assoc.
        rewrite take_app_length'; [reflexivity|].
        rewrite length_app. cbn. lia. }
      rewrite fmap_app in Heq. cbn [fmap list_fmap] in Heq. rewrite Heq.
      apply Hwide. rewrite Heq in Hlen. rewrite length_drop, length_take in Hlen.
      rewrite Hrows, length_app. cbn [length].
      rewrite length_fmap, Hrows, length_app in Hlen. cbn [length] in Hlen.
      lia. }
    destruct (IH (seen ++ [row]) (step st row)) as [Hfin Hdet]; try assumption.
    { now rewrite <- app_assoc. }
    { rewrite fmap_app. exact Hwin'. }
    split; [exact Hfin | now rewrite Hdet]. }
  destruct (H (iterrows traj) [] initial eq_refl eq_refl eq_refl) as [Hs Hd].
  { now exists 0%nat. }
  unfold StopDetector.final_stops. now rewrite Hs, Hd.
Qed.

End StopDetectorFurther.

Section StopDetectorDurations.

Import StopDetector StopDetectorInvariants.

Variable mrr_diagonal : list Point -> bool -> Q.
Variable max_diameter : Q.
Variable min_duration : timedelta.

(** X8: every stop that [get_stop_time_ranges] returns lasts at least
    [min_duration] and carries the identifier of the trajectory it was
    detected in: the one trajectory, or one of the collection. *)
Theorem stops_last_min_duration (self : detector_input)
  (stops : list TemporalRangeWithTrajId) :
  get_stop_time_ranges mrr_diagonal self max_diameter min_duration = Ok stops ->
  Forall (fun stop =>
            stop_t_n stop - stop_t_0 stop >= min_duration
            /\ match self with
               | OfTrajectory traj => stop_traj_id stop = id traj
               | OfTrajectoryCollection trajs =>
                   exists traj, traj ∈ trajs /\ stop_traj_id stop = id traj
               | OfOther => False
               end)
         stops.
Proof.
  destruct self as [traj|trajs|]; cbn; intros H; [| |discriminate];
    injection H as <-.
  - exact (process_traj_long_enough mrr_diagonal traj max_diameter min_duration).
  - unfold _process_traj_collection.
    induction trajs as [|traj trajs IH]; [constructor|].
    cbn [flat_map]. apply Forall_app. split.
    + eapply Forall_impl;
        [apply (process_traj_long_enough mrr_diagonal traj max_diameter min_duration)|].
      intros stop [Hd Hid]. split; [exact Hd|].
      exists traj. split; [apply list_elem_of_here | exact Hid].
    + eapply Forall_impl; [exact IH|].
      intros stop [Hd (t & Hin & Hid)]. split; [exact Hd|].
      exists t. split; [now apply list_elem_of_further | exact Hid].
Qed.

End StopDetectorDurations.

Section SequenceFurther.

Lemma getitem_nonneg (l : list timestamp) (i : nat) (x : timestamp) :
  l !! i = Some x -> getitem l (Z.of_nat i) = x.
Proof.
  intros Hi. pose proof (lookup_lt_Some _ _ _ Hi) as Hlt.
  unfold getitem. cbv zeta.
  destruct (Z.ltb_spec (Z.of_nat i) 0); [lia|].
  destruct (Z.leb_spec 0 (Z.of_nat i)); [|lia].
  destruct (Z.ltb_spec (Z.of_nat i) (Z.of_nat (length l))); [|lia].
  cbn [andb]. rewrite Nat2Z.id. now apply nth_lookup_Some.
Qed.

Lemma getitem_from_end (l : list timestamp) (k : nat) (x : timestamp) :
  (1 <= k <= length l)%nat ->
  l !! (length l - k)%nat = Some x -> getitem l (- Z.of_nat k) = x.
Proof.
  intros Hk Hi. unfold getitem. cbv zeta.
  destruct (Z.ltb_spec (- Z.of_nat k) 0); [|lia].
  destruct (Z.leb_spec 0 (Z.of_nat (length l) + - Z.of_nat k)); [|lia].
  destruct (Z.ltb_spec (Z.of_nat (length l) + - Z.of_nat k) (Z.of_nat (length l)));
    [|lia].
  cbn [andb].
  replace (Z.to_nat (Z.of_nat (length l) + - Z.of_nat k)) with (length l - k)%nat
    by lia.
  now apply nth_lookup_Some.
Qed.

Lemma StronglySorted_lt_app (l1 l2 : list Z) :
  StronglySorted Z.lt (l1 ++ l2) ->
  StronglySorted Z.lt l1 /\ StronglySorted Z.lt l2
  /\ forall x y, x ∈ l1 -> y ∈ l2 -> x < y.
Proof.
  induction l1 as [|a l1 IH]; cbn [app]; intros Hs.
  - split; [constructor|]. split; [exact Hs|].
    intros x y Hx. by apply elem_of_nil in Hx.
  - apply StronglySorted_inv in Hs as [Hs Hall].
    destruct (IH Hs) as (H1 & H2 & H12).
    apply Forall_app in Hall as [Ha1 Ha2].
    split; [now constructor|]. split; [exact H2|].
    intros x y Hx Hy. apply elem_of_cons in Hx as [->|Hx]; [|now apply H12].
    rewrite Forall_forall in Ha2. now apply Ha2.
Qed.

Lemma StronglySorted_snoc {A} (R : A -> A -> Prop) (l : list A) (x : A) :
  StronglySorted R l -> Forall (fun a => R a x) l -> StronglySorted R (l ++ [x]).
Proof.
  induction 1 as [|a l Hs IH Hall]; intros Hx; cbn [app].
  - repeat constructor.
  - apply Forall_cons_1 in Hx as [Hax Hx].
    constructor; [now apply IH|].
    apply Forall_app. split; [exact Hall | repeat constructor; exact Hax].
Qed.

End SequenceFurther.

Section StopDetectorChronology.

Import StopDetector StopDetectorInvariants.

Variable mrr_diagonal : list Point -> bool -> Q.
Variable traj : Trajectory.
Variable max_diameter : Q.
Variable min_duration : timedelta.

Local Abbreviation step := (step mrr_diagonal traj max_diameter min_duration).
Local Abbreviation handle_transition := (handle_transition traj min_duration).
Local Abbreviation update_is_stopped := (update_is_stopped mrr_diagonal traj max_diameter).
Local Abbreviation trim_if_moving := (trim_if_moving min_duration).
Local Abbreviation trim := (trim min_duration).
Local Abbreviation mid st row :=
  (update_is_stopped (trim_if_moving (append_sample st row))).

(** The [while] loop drops samples from the front only. *)
Lemma trim_suffix geoms (times : list timestamp) :
  exists dropped, times = dropped ++ snd (trim geoms times).
Proof.
  revert times. induction geoms as [|g geoms IH]; intros times.
  - now exists [].
  - cbn [StopDetector.trim]. destruct (_ && _); [|now exists []].
    destruct (IH (tail times)) as (dropped & Hd).
    destruct times as [|t times]; cbn [tail] in *.
    + now exists dropped.
    + exists (t :: dropped). cbn [app]. now f_equal.
Qed.

Lemma mid_times_suffix st row :
  exists dropped,
    segment_times st ++ [row.1] = dropped ++ segment_times (mid st row).
Proof.
  unfold StopDetector.update_is_stopped. cbn [segment_times].
  unfold StopDetector.trim_if_moving. cbn.
  destruct (negb (is_stopped st)); cbn; [|now exists []].
  destruct (trim_suffix (segment_geoms st ++ [row.2]) (segment_times st ++ [row.1]))
    as (dropped & Hd).
  exists dropped. now destruct (trim _ _).
Qed.

(** In an increasing window of at least two samples the first one is no
    later than the last two. *)
Lemma window_ends (times : list timestamp) :
  StronglySorted Z.lt times -> (2 <= length times)%nat ->
  getitem times 0 ∈ times
  /\ getitem times (-2) ∈ times /\ getitem times (-1) ∈ times
  /\ getitem times 0 <= getitem times (-2)
  /\ getitem times 0 <= getitem times (-1).
Proof.
  intros Hs Hlen.
  destruct (lookup_lt_is_Some_2 times 0) as [x Hx]; [lia|].
  destruct (lookup_lt_is_Some_2 times (length times - 2)) as [y Hy]; [lia|].
  destruct (lookup_lt_is_Some_2 times (length times - 1)) as [z Hz]; [lia|].
  pose proof (getitem_nonneg times 0 x Hx) as G0.
  pose proof (getitem_from_end times 2 y ltac:(lia) Hy) as G2.
  pose proof (getitem_from_end times 1 z ltac:(lia) Hz) as G1.
  change (Z.of_nat 0) with 0 in G0.
  change (- Z.of_nat 2) with (-2) in G2.
  change (- Z.of_nat 1) with (-1) in G1.
  rewrite G0, G2, G1.
  repeat split; try (eapply list_elem_of_lookup_2; eassumption).
  - destruct (decide (length times - 2 = 0)%nat) as [E|E].
    + rewrite E in Hy. assert (x = y) by congruence. lia.
    + pose proof (StronglySorted_lookup _ times 0 (length times - 2) x y Hs
                    ltac:(lia) Hx Hy).
      lia.
  - pose proof (StronglySorted_lookup _ times 0 (length times - 1) x z Hs
                  ltac:(lia) Hx Hz).
    lia.
Qed.

Lemma step_chronological (seen : list timestamp) st row :
  window_ok st ->
  StronglySorted Z.lt (seen ++ [row.1]) ->
  chronological seen st ->
  chronological (seen ++ [row.1]) (step st row).
Proof.
  intros (Hlen & _ & _) Hsorted (before & Hseen & Hstops & Hord).
  destruct (mid_times_suffix st row) as (dropped & Hdrop).
  assert (seen ++ [row.1] = (before ++ dropped) ++ segment_times (mid st row))
    as Hsplit by (rewrite Hseen, <- !app_assoc; now f_equal).
  assert (Forall (fun stop => stop_t_0 stop <= stop_t_n stop
                              /\ stop_t_0 stop ∈ before ++ dropped
                              /\ stop_t_n stop ∈ before ++ dropped)
            (detected_stops st)) as Hstops'.
  { eapply Forall_impl; [exact Hstops|]. cbn. intros stop (H1 & H2 & H3).
    rewrite !elem_of_app. auto. }
  change (step st row) with (record_previous (handle_transition (mid st row))).
  pose proof (mid_detected mrr_diagonal traj max_diameter min_duration st row) as Hdet.
  pose proof (mid_lengths mrr_diagonal traj max_diameter min_duration st row Hlen)
    as Hmid.
  destruct (handle_transition_cases traj min_duration (mid st row))
    as [->|(_ & _ & Hlong & _ & ->)].
  - exists (before ++ dropped).
    cbn [record_previous segment_times detected_stops]. rewrite Hdet. auto.
  - exists (seen ++ [row.1]).
    cbn [record_previous segment_times detected_stops]. rewrite Hdet.
    rewrite Hsplit in Hsorted.
    destruct (StronglySorted_lt_app _ _ Hsorted) as (_ & Hwin & Hlt).
    destruct (window_ends (segment_times (mid st row)) Hwin)
      as (Hfirst & Hlast & _ & Hle & _); [lia|].
    split; [now rewrite app_nil_r|]. split.
    + apply Forall_app. split.
      * eapply Forall_impl; [exact Hstops'|]. cbn. intros stop (H1 & H2 & H3).
        rewrite Hsplit. split; [exact H1|].
        split; apply elem_of_app; now left.
      * repeat constructor; cbn [stop_t_0 stop_t_n]; [exact Hle | |];
          rewrite Hsplit; apply elem_of_app; now right.
    + apply StronglySorted_snoc; [exact Hord|].
      eapply Forall_impl; [exact Hstops'|]. cbn. intros stop (_ & _ & H3).
      now apply Hlt.
Qed.

Lemma fold_step_chronological (rows : list (timestamp * Point))
  (seen : list timestamp) st :
  window_ok st ->
  StronglySorted Z.lt (seen ++ (fst <$> rows)) ->
  chronological seen st ->
  chronological (seen ++ (fst <$> rows)) (fold_left step rows st)
  /\ window_ok (fold_left step rows st).
Proof.
  revert seen st. induction rows as [|row rows IH]; intros seen st Hok Hs Hc.
  - cbn. rewrite app_nil_r. auto.
  - cbn [fold_left]. rewrite fmap_cons in Hs |- *.
    assert (seen ++ row.1 :: (fst <$> rows) = (seen ++ [row.1]) ++ (fst <$> rows))
      as Heq by now rewrite <- app_assoc.
    rewrite Heq in Hs |- *.
    apply IH.
    + now apply step_window_ok.
    + exact Hs.
    + apply step_chronological; [exact Hok | | exact Hc].
      now apply StronglySorted_lt_app in Hs as (Hs & _).
Qed.

(** X11: on a trajectory whose timestamps increase strictly, every stop
    detected runs forward from one sample time to another
    ([t_0 <= t_n]), and the stops come in time order, each one ending
    strictly before the next one starts. *)
Theorem stops_are_chronological :
  StronglySorted Z.lt (fst <$> iterrows traj) ->
  let stops := _process_traj mrr_diagonal traj max_diameter min_duration in
  Forall (fun stop => stop_t_0 stop <= stop_t_n stop
                      /\ stop_t_0 stop ∈ (fst <$> iterrows traj)
                      /\ stop_t_n stop ∈ (fst <$> iterrows traj))
         stops
  /\ StronglySorted (fun a b => stop_t_n a < stop_t_0 b) stops.
Proof.
  intros Hs stops. subst stops.
  unfold StopDetector._process_traj, StopDetector.scan.
  destruct (fold_step_chronological (iterrows traj) [] initial)
    as [(before & Hseen & Hstops & Hord) (Hlen & _ & Hlong)].
  { repeat split. discriminate. }
  { exact Hs. }
  { exists []. repeat split; constructor. }
  cbn [app] in Hseen.
  set (st := fold_left step (iterrows traj) initial) in *.
  assert (Forall (fun stop => stop_t_0 stop <= stop_t_n stop
                              /\ stop_t_0 stop ∈ (fst <$> iterrows traj)
                              /\ stop_t_n stop ∈ (fst <$> iterrows traj))
            (detected_stops st)) as Hstops'.
  { eapply Forall_impl; [exact Hstops|]. cbn. intros stop (H1 & H2 & H3).
    rewrite Hseen, !elem_of_app. auto. }
  unfold StopDetector.final_stops.
  destruct (is_stopped st) eqn:Hst; cbn [andb]; [|auto].
  destruct (_ >=? _); [|auto].
  rewrite Hseen in Hs.
  destruct (StronglySorted_lt_app _ _ Hs) as (_ & Hwin & Hlt).
  destruct (window_ends (segment_times st) Hwin (Hlong eq_refl))
    as (Hfirst & _ & Hlast & _ & Hle).
  split.
  - apply Forall_app. split; [exact Hstops'|].
    repeat constructor; cbn [stop_t_0 stop_t_n]; [exact Hle | |];
      rewrite Hseen; apply elem_of_app; now right.
  - apply StronglySorted_snoc; [exact Hord|].
    eapply Forall_impl; [exact Hstops|]. cbn. intros stop (_ & _ & H3).
    now apply Hlt.
Qed.

End StopDetectorChronology.

Section StopDetectorFurtherExamples.

Import StopDetector StopDetectorInvariants.

Lemma process_traj_too_short_witness :
  _process_traj line_diagonal sample_single 1%Q (timedelta_seconds 15) = [].
Proof.
  apply (process_traj_too_short line_diagonal sample_single 1%Q (timedelta_seconds 15)).
  cbn. lia.
Defined.

Lemma process_traj_never_compact_witness :
  _process_traj line_diagonal sample_moving 10%Q (timedelta_seconds 15) = [].
Proof.
  apply (process_traj_never_compact line_diagonal sample_moving 10%Q
           (timedelta_seconds 15)).
  intros i j Hij. cbn [sample_moving iterrows length] in Hij.
  destruct i as [|[|[|i]]], j as [|[|[|[|[|j]]]]]; try lia;
    vm_compute; discriminate.
Defined.

Lemma stops_last_min_duration_witness :
  Forall (fun stop =>
            stop_t_n stop - stop_t_0 stop >= timedelta_seconds 15
            /\ exists traj, traj ∈ [sample_two_rests; sample_single]
                            /\ stop_traj_id stop = id traj)
    [mkTemporalRangeWithTrajId 0 (timedelta_seconds 20) "traj";
     mkTemporalRangeWithTrajId (timedelta_seconds 40) (timedelta_seconds 60) "traj"].
Proof.
  apply (stops_last_min_duration line_diagonal 1%Q (timedelta_seconds 15)
           (OfTrajectoryCollection [sample_two_rests; sample_single])).
  vm_compute. reflexivity.
Defined.

Lemma stops_are_chronological_witness :
  let stops := _process_traj line_diagonal sample_two_rests 1%Q (timedelta_seconds 15) in
  Forall (fun stop => stop_t_0 stop <= stop_t_n stop
                      /\ stop_t_0 stop ∈ (fst <$> iterrows sample_two_rests)
                      /\ stop_t_n stop ∈ (fst <$> iterrows sample_two_rests))
         stops
  /\ StronglySorted (fun a b => stop_t_n a < stop_t_0 b) stops.
Proof.
  apply (stops_are_chronological line_diagonal sample_two_rests 1%Q
           (timedelta_seconds 15)).
  cbn. repeat constructor; vm_compute; reflexivity.
Defined.

End StopDetectorFurtherExamples.

Section DissolveFurtherExamples.

Import Dissolve.

Lemma dissolve_ranges_idempotent_witness :
  _dissolve_ranges [Some (range_at 0 20); Some (range_at 25 30)]
  = Ok [Some (range_at 0 20); Some (range_at 25 30)].
Proof.
  apply (dissolve_ranges_idempotent
           [Some (range_at 0 10); None; Some (range_at 10 20); Some (range_at 25 30)]).
  reflexivity.
Defined.

End DissolveFurtherExamples.

Section ClipFurther.

Import Frames Overlay.

Context `{Collaborators}.

Lemma intersects_unfold (traj : Trajectory) (polygon : Polygon) (s : store) :
  intersects traj polygon s
  = match to_linestring traj s with
    | (Ok line, s') => (Ok (line_intersects line polygon), s')
    | (Raise _, s') => (Ok false, s')
    end.
Proof.
  unfold intersects, catch. rewrite bind_unfold.
  now destruct (to_linestring traj s) as [[line|e] s'].
Qed.

(** X12: [intersects] never raises, whatever [to_linestring] raises; and
    [clip] returns the empty list, without computing any range, when the
    trajectory has no line (too few samples) or its line does not meet the
    polygon. *)
Theorem clip_empty_without_intersection (traj : Trajectory) (polygon : Polygon)
  (pointbased : bool) (s : store) :
  (exists b s', intersects traj polygon s = (Ok b, s'))
  /\ (forall e s',
        to_linestring traj s = (Raise e, s') ->
        clip traj polygon pointbased s = (Ok [], s'))
  /\ (forall line s',
        to_linestring traj s = (Ok line, s') ->
        line_intersects line polygon = false ->
        clip traj polygon pointbased s = (Ok [], s')).
Proof.
  split; [|split].
  - rewrite intersects_unfold.
    destruct (to_linestring traj s) as [[line|e] s']; eauto.
  - intros e s' Hline. unfold clip. rewrite bind_unfold, intersects_unfold, Hline.
    reflexivity.
  - intros line s' Hline Hno. unfold clip.
    rewrite bind_unfold, intersects_unfold, Hline, Hno. reflexivity.
Qed.

(** X13: [intersection] fails fast on a feature that is not a dict, that
    lacks its geometry or its properties, or whose geometry [shape] rejects:
    it raises [TypeError] and leaves the store as it was, no clipping
    done. *)
Theorem intersection_rejects_malformed_feature (traj : Trajectory)
  (feature : Feature) (pointbased : bool) (s : store) :
  (feature = NotADict
   \/ (exists properties, feature = Dict None properties)
   \/ (exists geometry, feature = Dict geometry None)
   \/ (exists geometry properties e,
         feature = Dict (Some geometry) properties /\ shape geometry = Raise e)) ->
  _get_geometry_and_properties_from_feature feature = Raise TypeError
  /\ intersection traj feature pointbased s = (Raise TypeError, s).
Proof.
  intros Hbad.
  assert (_get_geometry_and_properties_from_feature feature = Raise TypeError) as E.
  { destruct Hbad as [->|[(p & ->)|[(g & ->)|(g & p & e & -> & He)]]]; cbn.
    - reflexivity.
    - reflexivity.
    - now destruct g.
    - rewrite He. now destruct p. }
  split; [exact E|].
  unfold intersection. rewrite bind_unfold. unfold lift. now rewrite E.
Qed.

Lemma catch_unfold {A} (m : M A) (h : exn -> M A) (s : store) :
  catch m h s
  = match m s with
    | (Raise e, s') => h e s'
    | (Ok a, s') => (Ok a, s')
    end.
Proof. unfold catch. now destruct (m s) as [[a|e] s']. Qed.

(** The segments that the loop adds to those it was given. *)
Lemma segments_loop_appends (traj : Trajectory) (ranges : list Range)
  (counter : nat) (segments out : list Trajectory) (s s' : store) :
  segments_loop traj ranges counter segments s = (Ok out, s') ->
  exists new,
    out = segments ++ new
    /\ (length new <= length ranges)%nat
    /\ forall i segment,
         new !! i = Some segment ->
         id segment = id traj +:+ "_" +:+ pretty (counter + i)%nat
         /\ parent segment = Some traj.
Proof.
  revert counter segments s.
  induction ranges as [|the_range rest IH]; intros counter segments s Hrun.
  - cbn in Hrun. injection Hrun as <- <-. exists [].
    rewrite app_nil_r. split; [reflexivity|]. split; [cbn; lia|].
    intros i segment Hi. discriminate.
  - cbn [segments_loop] in Hrun.
    apply bind_Ok_inv in Hrun as (temp & s1 & _ & Hrun).
    apply bind_Ok_inv in Hrun as (temp' & s2 & _ & Hrun).
    apply bind_Ok_inv in Hrun as (found & s3 & _ & Hrun).
    destruct found as [segment|].
    + apply IH in Hrun as (new & -> & Hlen & Hids).
      exists ({| id := id traj +:+ "_" +:+ pretty counter;
                 df := df segment; parent := Some traj |} :: new).
      rewrite <- app_assoc. split; [reflexivity|].
      split; [cbn [length]; lia|].
      intros [|i] seg Hi.
      * cbn in Hi. injection Hi as <-. cbn [id parent].
        now rewrite Nat.add_0_r.
      * cbn in Hi. destruct (Hids i seg Hi) as [Hid Hpar].
        split; [|exact Hpar].
        now replace (counter + S i)%nat with (S counter + i)%nat by lia.
    + apply IH in Hrun as (new & -> & Hlen & Hids).
      exists new. split; [reflexivity|]. split; [cbn [length]; lia | exact Hids].
Qed.

(** X14: the segments [_get_segments_for_ranges] returns are numbered in
    their order, without gaps, whatever ranges were skipped: the one at
    position [i] has the identifier [<id of the trajectory>_<i>] and the
    trajectory as its parent; there are no more of them than ranges. *)
Theorem segments_are_numbered (traj : Trajectory) (ranges : list Range)
  (segments : list Trajectory) (s s' : store) :
  _get_segments_for_ranges traj ranges s = (Ok segments, s') ->
  (length segments <= length ranges)%nat
  /\ forall i segment,
       segments !! i = Some segment ->
       id segment = id traj +:+ "_" +:+ pretty i
       /\ parent segment = Some traj.
Proof.
  unfold _get_segments_for_ranges. intros Hrun.
  apply segments_loop_appends in Hrun as (new & -> & Hlen & Hids).
  cbn [app]. split; [exact Hlen | exact Hids].
Qed.

(** An absent range is not skipped: reading its [t_0] raises. *)
Lemma segments_loop_absent_range (traj temp : Trajectory) (rest : list Range)
  (counter : nat) (segments : list Trajectory) (s s1 : store) :
  traj_copy traj s = (Ok temp, s1) ->
  segments_loop traj (RNone :: rest) counter segments s = (Raise AttributeError, s1).
Proof.
  intros Hcopy. cbn [segments_loop].
  rewrite bind_unfold, Hcopy, bind_unfold. unfold mret at 1, M_ret at 1.
  rewrite bind_unfold, catch_unfold. reflexivity.
Qed.

End ClipFurther.

Section ClipAbsentRange.

Import Frames Overlay Dissolve Interpolation.

Context `{Collaborators}.

Lemma dissolve_ranges_none_only (ranges : list (option SpatioTemporalRange)) :
  ranges <> [] -> Forall (fun o => o = None) ranges ->
  _dissolve_ranges ranges = Ok [None].
Proof.
  intros Hne Hall. rewrite (dissolve_ranges_present _ Hne).
  assert (present ranges = []) as ->; [|reflexivity].
  induction Hall as [|o ranges -> _ IH]; [reflexivity|].
  rewrite present_cons_none.
  destruct ranges as [|o' ranges']; [reflexivity|]. now apply IH.
Qed.

Lemma apply_rows_no_line (rows : list LineRow) :
  Forall (fun row => forall coords,
            row_spatial_intersection row <> GLineString coords) rows ->
  apply_rows rows = Ok ((fun _ => None) <$> rows).
Proof.
  induction 1 as [|row rows Hrow _ IH]; [reflexivity|].
  cbn [apply_rows]. rewrite IH.
  unfold _get_spatiotemporal_ref.
  destruct (row_spatial_intersection row) as [coords| |]; try reflexivity.
  now destruct (Hrow coords).
Qed.

(** X15: a line-based [clip] raises [AttributeError] when the line of the
    trajectory meets the polygon and yet no candidate line meets it in a
    [LineString] (the trajectory only touches the polygon, or meets it in
    several parts): the dissolution then returns the absent marker alone,
    and reading its [t_0] is not among the errors that are skipped. *)
Theorem clip_linebased_raises_without_line_intersection (traj temp : Trajectory)
  (polygon : Polygon) (line : LineString) (lines : list Line)
  (s s1 s2 s3 : store) :
  to_linestring traj s = (Ok line, s1) ->
  line_intersects line polygon = true ->
  _get_potentially_intersecting_lines traj polygon s1 = (Ok lines, s2) ->
  lines <> [] ->
  Forall (fun m => forall coords,
            line_intersection (line_geometry m) polygon <> GLineString coords)
         lines ->
  traj_copy traj s2 = (Ok temp, s3) ->
  clip traj polygon false s = (Raise AttributeError, s3).
Proof.
  intros Hline Hmeets Hlines Hne Hno Hcopy.
  unfold clip. rewrite bind_unfold, intersects_unfold, Hline, Hmeets. cbn [negb].
  rewrite bind_unfold. unfold _determine_time_ranges_linebased.
  rewrite !bind_unfold, Hlines. cbv zeta.
  rewrite bind_unfold. unfold lift at 1.
  rewrite apply_rows_no_line.
  2:{ apply Forall_fmap. eapply Forall_impl; [exact Hno|]. cbn. auto. }
  unfold lift. rewrite dissolve_ranges_none_only.
  2:{ destruct lines; [contradiction | discriminate]. }
  2:{ rewrite <- list_fmap_compose. apply Forall_fmap.
      apply Forall_true. reflexivity. }
  unfold mret at 1, M_ret at 1. cbn [fmap list_fmap Range_of_option].
  unfold _get_segments_for_ranges.
  now apply segments_loop_absent_range with (temp := temp).
Qed.

End ClipAbsentRange.

Section OverlayFurtherExamples.

Import Frames Overlay WestEastOverlay OverlaySamples.

Lemma clip_linebased_raises_without_line_intersection_witness :
  clip sample_traj sample_band false touching_store
  = (Raise AttributeError, touching_store ++ [touching_table]).
Proof.
  apply (clip_linebased_raises_without_line_intersection (H := collaborators)
           sample_traj {| id := "traj"; df := 1%nat; parent := None |}
           sample_band [(0%Q, 0%Q); (2%Q, 0%Q)]
           [mkLine 0 (timedelta_seconds 2) [(0%Q, 0%Q); (2%Q, 0%Q)]]
           touching_store touching_store touching_store).
  - reflexivity.
  - reflexivity.
  - reflexivity.
  - discriminate.
  - repeat constructor. intros coords. vm_compute. discriminate.
  - reflexivity.
Defined.

Lemma segments_are_numbered_witness :
  let segment := {| id := "traj_0"; df := 3%nat; parent := Some sample_traj |} in
  id segment = id sample_traj +:+ "_" +:+ pretty 0%nat
  /\ parent segment = Some sample_traj.
Proof.
  intros segment.
  refine (proj2
            (segments_are_numbered (H := collaborators) sample_traj
               [RTemporal (mkTemporalRange (timedelta_seconds 20) (timedelta_seconds 30));
                RTemporal (mkTemporalRange (timedelta_seconds 3) (timedelta_seconds 4))]
               [segment] sample_store
               (snd (_get_segments_for_ranges (H := collaborators) sample_traj
                       [RTemporal (mkTemporalRange (timedelta_seconds 20)
                                     (timedelta_seconds 30));
                        RTemporal (mkTemporalRange (timedelta_seconds 3)
                                     (timedelta_seconds 4))]
                       sample_store))
               _)
            0%nat segment eq_refl).
  vm_compute. reflexivity.
Defined.

End OverlayFurtherExamples.

Section PointBasedFurther.

Import Frames Overlay OverlayReference.

Context `{Collaborators}.

Lemma run_numbers_length (prev : option bool) (n : Z) (flags : list bool) :
  length (run_numbers prev n flags) = length flags.
Proof.
  revert prev n. induction flags as [|b flags IH]; intros prev n; cbn;
    [reflexivity|]. now rewrite IH.
Qed.

Lemma pointbased_returns (traj : Trajectory) (polygon : Polygon)
  (s : store) (d : DataFrame) (geometry : list value) :
  s !! df traj = Some d ->
  columns d !! "geometry" = Some geometry ->
  length geometry = length (index d) ->
  exists s',
    _determine_time_ranges_pointbased traj polygon s
    = (Ok (pointbased_ranges (index d)
             ((fun v => cell_intersects v polygon) <$> geometry)), s').
Proof.
  intros Hd Hgeom Hlen.
  assert (df traj < length s)%nat as Hlt by (eapply lookup_lt_Some; exact Hd).
  eexists.
  unfold _determine_time_ranges_pointbased. cbv zeta.
  rewrite bind_unfold, (read_Some _ _ _ Hd).
  rewrite bind_unfold, (setitem_Some _ _ _ _ _ Hd) by apply length_fmap.
  rewrite bind_unfold.
  erewrite read_Some by (apply list_lookup_insert_eq; exact Hlt).
  cbn [columns index].
  rewrite lookup_insert_ne by discriminate. rewrite Hgeom.
  rewrite bind_unfold. unfold mret at 1, M_ret at 1.
  rewrite bind_unfold.
  erewrite setitem_Some;
    [ | apply list_lookup_insert_eq; exact Hlt
      | cbn [index]; rewrite !length_fmap; exact Hlen ].
  rewrite list_insert_insert_eq. cbn [columns index].
  rewrite bind_unfold.
  erewrite setitem_Some;
    [ | apply list_lookup_insert_eq; exact Hlt
      | cbn [index]; rewrite length_fmap, run_numbers_length, length_fmap; exact Hlen ].
  rewrite list_insert_insert_eq. cbn [columns index].
  rewrite bind_unfold.
  erewrite read_Some by (apply list_lookup_insert_eq; exact Hlt).
  reflexivity.
Qed.

Lemma foldr_min_spec (t : Z) (l : list Z) :
  foldr Z.min t l ∈ t :: l /\ foldr Z.min t l <= t.
Proof.
  induction l as [|x l [IHin IHle]]; cbn [foldr].
  - split; [apply list_elem_of_here | lia].
  - split; [|lia].
    destruct (Z.min_spec x (foldr Z.min t l)) as [[_ ->]|[_ ->]].
    + apply list_elem_of_further, list_elem_of_here.
    + apply elem_of_cons in IHin as [->|IHin];
        [apply list_elem_of_here | now do 2 apply list_elem_of_further].
Qed.

Lemma foldr_max_spec (t : Z) (l : list Z) :
  foldr Z.max t l ∈ t :: l /\ t <= foldr Z.max t l.
Proof.
  induction l as [|x l [IHin IHle]]; cbn [foldr].
  - split; [apply list_elem_of_here | lia].
  - split; [|lia].
    destruct (Z.max_spec x (foldr Z.max t l)) as [[_ ->]|[_ ->]].
    + apply elem_of_cons in IHin as [->|IHin];
        [apply list_elem_of_here | now do 2 apply list_elem_of_further].
    + apply list_elem_of_further, list_elem_of_here.
Qed.

(** A group that is flagged runs between two of its flagged rows. *)
Lemma aggregate_flagged (rows : list (Z * (timestamp * bool))) (k : Z)
  (t_min t_max : timestamp) :
  aggregate rows k = Some (t_min, t_max, true) ->
  t_min <= t_max
  /\ (t_min, true) ∈ (snd <$> rows) /\ (t_max, true) ∈ (snd <$> rows).
Proof.
  unfold aggregate.
  assert (forall x, x ∈ (snd <$> filter (fun r => r.1 = k) rows) ->
                    x ∈ (snd <$> rows)) as Hsub.
  { intros x Hx. apply list_elem_of_fmap in Hx as (r & -> & Hr).
    apply list_elem_of_filter in Hr as [_ Hr]. now apply list_elem_of_fmap_2. }
  destruct (snd <$> filter (fun r => r.1 = k) rows) as [|[t b] group];
    [discriminate|].
  intros Hagg. injection Hagg as <- <- Hall.
  destruct (foldr_min_spec t (fst <$> group)) as [Hmin Hminle].
  destruct (foldr_max_spec t (fst <$> group)) as [Hmax Hmaxle].
  assert (forall x, x ∈ t :: (fst <$> group) -> (x, true) ∈ (t, b) :: group)
    as Hflag.
  { intros x Hx. cbn [forallb] in Hall. apply andb_true_iff in Hall as [-> Hall].
    apply elem_of_cons in Hx as [->|Hx]; [apply list_elem_of_here|].
    apply list_elem_of_further.
    apply list_elem_of_fmap in Hx as ([t' b'] & -> & Hin).
    rewrite forallb_forall in Hall.
    assert (b' = true) as ->; [|exact Hin].
    apply Hall. apply list_elem_of_In.
    now apply (list_elem_of_fmap_2 snd) in Hin. }
  split; [eapply Z.le_trans; [exact Hminle | exact Hmaxle]|].
  split; apply Hsub, Hflag; assumption.
Qed.

Lemma aggregate_unflagged (rows : list (Z * (timestamp * bool))) (k : Z)
  (g : timestamp * timestamp * bool) :
  Forall (fun r => snd (snd r) = false) rows ->
  aggregate rows k = Some g -> snd g = false.
Proof.
  unfold aggregate. intros Hall.
  destruct (snd <$> filter (fun r => r.1 = k) rows) as [|[t b] group] eqn:E;
    [discriminate|].
  intros Hagg. injection Hagg as <-. cbn [snd forallb].
  assert ((t, b) ∈ (snd <$> filter (fun r => r.1 = k) rows)) as Hin
    by (rewrite E; apply list_elem_of_here).
  apply list_elem_of_fmap in Hin as (r & Hr & Hin).
  apply list_elem_of_filter in Hin as [_ Hin].
  rewrite Forall_forall in Hall. specialize (Hall r Hin).
  rewrite <- Hr in Hall. cbn in Hall. now rewrite Hall.
Qed.

Lemma elem_of_zip_fmap_r {A B C} (f : B -> C) (l : list A) (k : list B)
  (a : A) (c : C) :
  (a, c) ∈ zip l (f <$> k) -> exists b, (a, b) ∈ zip l k /\ c = f b.
Proof.
  revert k. induction l as [|x l IH]; intros [|y k] Hin; cbn in Hin;
    try (by apply elem_of_nil in Hin).
  apply elem_of_cons in Hin as [Heq|Hin].
  - injection Heq as -> ->. exists y. split; [apply list_elem_of_here | reflexivity].
  - destruct (IH k Hin) as (b & Hb & ->).
    exists b. split; [now apply list_elem_of_further | reflexivity].
Qed.

(** X16: the ranges of the point-based scan run forward between two samples
    that intersect the polygon ([t_0 <= t_n], both the times of such
    samples), and when no sample intersects the polygon there is no
    range. *)
Theorem pointbased_ranges_between_inside_samples (traj : Trajectory)
  (polygon : Polygon) (s : store) (d : DataFrame) (geometry : list value) :
  s !! df traj = Some d ->
  columns d !! "geometry" = Some geometry ->
  length geometry = length (index d) ->
  exists ranges s',
    _determine_time_ranges_pointbased traj polygon s = (Ok ranges, s')
    /\ Forall (fun r =>
                 range_t_0 r <= range_t_n r
                 /\ (exists v, (range_t_0 r, v) ∈ zip (index d) geometry
                               /\ cell_intersects v polygon = true)
                 /\ (exists v, (range_t_n r, v) ∈ zip (index d) geometry
                               /\ cell_intersects v polygon = true))
              ranges
    /\ (Forall (fun v => cell_intersects v polygon = false) geometry ->
        ranges = []).
Proof.
  intros Hd Hgeom Hlen.
  destruct (pointbased_returns traj polygon s d geometry Hd Hgeom Hlen) as (s' & Hrun).
  eexists. exists s'. split; [exact Hrun|].
  unfold pointbased_ranges.
  set (flags := (fun v => cell_intersects v polygon) <$> geometry).
  set (rows := zip (run_numbers None 0 flags) (zip (index d) flags)).
  assert (forall t, (t, true) ∈ (snd <$> rows) ->
            exists v, (t, v) ∈ zip (index d) geometry
                      /\ cell_intersects v polygon = true) as Hsample.
  { intros t Hin. apply list_elem_of_fmap in Hin as ([k [t' b]] & Heq & Hin).
    cbn in Heq. injection Heq as <- <-.
    apply elem_of_zip_r in Hin.
    apply elem_of_zip_fmap_r in Hin as (v & Hv & Hflag).
    exists v. split; [exact Hv | now symmetry]. }
  split.
  - apply Forall_forall. intros r Hr.
    apply list_elem_of_omap in Hr as ([[t_min t_max] b] & Hg & Hsome).
    destruct b; [|discriminate]. injection Hsome as <-.
    unfold groupby_segment in Hg.
    apply list_elem_of_omap in Hg as (k & _ & Hagg).
    apply aggregate_flagged in Hagg as (Hle & Hmin & Hmax).
    cbn [range_t_0 range_t_n]. auto.
  - intros Hnone.
    assert (Forall (fun r : Z * (timestamp * bool) => snd (snd r) = false) rows)
      as Hrows.
    { apply Forall_forall. intros [k [t b]] Hin. cbn.
      apply elem_of_zip_r, elem_of_zip_r in Hin.
      apply list_elem_of_fmap in Hin as (v & -> & Hv).
      rewrite Forall_forall in Hnone. now apply Hnone. }
    set (groups := groupby_segment rows).
    assert (Forall (fun g : timestamp * timestamp * bool => snd g = false) groups)
      as Hgroups.
    { apply Forall_forall. intros g Hg. unfold groups, groupby_segment in Hg.
      apply list_elem_of_omap in Hg as (k & _ & Hagg).
      exact (aggregate_unflagged rows _ g Hrows Hagg). }
    clearbody groups. induction Hgroups as [|[[t_min t_max] b] groups Hb _ IH];
      [reflexivity|].
    cbn in Hb. subst b. cbn. exact IH.
Qed.

End PointBasedFurther.

Section PointBasedFurtherExamples.

Import Frames Overlay WestEastOverlay.

Lemma pointbased_ranges_between_inside_samples_witness :
  exists ranges s',
    _determine_time_ranges_pointbased sample_traj sample_band sample_store
    = (Ok ranges, s')
    /\ Forall (fun r =>
                 range_t_0 r <= range_t_n r
                 /\ (exists v, (range_t_0 r, v)
                               ∈ zip (index sample_table)
                                     [VGeom (0%Q, 0%Q); VGeom (3%Q, 0%Q);
                                      VGeom (4%Q, 0%Q); VGeom (10%Q, 0%Q)]
                               /\ cell_intersects v sample_band = true)
                 /\ (exists v, (range_t_n r, v)
                               ∈ zip (index sample_table)
                                     [VGeom (0%Q, 0%Q); VGeom (3%Q, 0%Q);
                                      VGeom (4%Q, 0%Q); VGeom (10%Q, 0%Q)]
                               /\ cell_intersects v sample_band = true))
              ranges
    /\ (Forall (fun v => cell_intersects v sample_band = false)
          [VGeom (0%Q, 0%Q); VGeom (3%Q, 0%Q); VGeom (4%Q, 0%Q); VGeom (10%Q, 0%Q)] ->
        ranges = []).
Proof.
  apply (pointbased_ranges_between_inside_samples (H := collaborators)
           sample_traj sample_band sample_store sample_table).
  - reflexivity.
  - vm_compute. reflexivity.
  - reflexivity.
Defined.

End PointBasedFurtherExamples.

Section SortIndexFacts.

Import Frames.

Implicit Types (key : nat -> Z) (l order : list nat) (labels : list Z).

Lemma insert_by_perm key i l : insert_by key i l ≡ₚ i :: l.
Proof.
  induction l as [|j l IH]; cbn [insert_by]; [reflexivity|].
  destruct (key i <=? key j); [reflexivity|].
  rewrite IH. apply Permutation_swap.
Qed.

Lemma insert_by_HdRel key i j l :
  key j <= key i ->
  HdRel (fun a b => key a <= key b) j l ->
  HdRel (fun a b => key a <= key b) j (insert_by key i l).
Proof.
  intros Hji Hhd. destruct l as [|x l]; cbn [insert_by]; [now constructor|].
  destruct (key i <=? key x); constructor; [exact Hji|].
  now apply HdRel_inv in Hhd.
Qed.

Lemma insert_by_sorted key i l :
  Sorted (fun a b => key a <= key b) l ->
  Sorted (fun a b => key a <= key b) (insert_by key i l).
Proof.
  induction 1 as [|j l Hs IH Hhd]; cbn [insert_by]; [repeat constructor|].
  destruct (Z.leb_spec (key i) (key j)).
  - constructor; [now constructor|]. now constructor.
  - constructor; [exact IH|]. apply insert_by_HdRel; [lia | exact Hhd].
Qed.

Lemma argsort_perm labels : argsort labels ≡ₚ seq 0 (length labels).
Proof.
  unfold argsort. induction (seq 0 (length labels)) as [|i l IH]; [reflexivity|].
  cbn [foldr]. now rewrite insert_by_perm, IH.
Qed.

Lemma argsort_sorted labels :
  Sorted (fun a b => default 0 (labels !! a) <= default 0 (labels !! b))
         (argsort labels).
Proof.
  unfold argsort. induction (seq 0 (length labels)) as [|i l IH];
    [constructor|].
  cbn [foldr]. now apply insert_by_sorted.
Qed.

Lemma argsort_in_range labels i : i ∈ argsort labels -> (i < length labels)%nat.
Proof.
  rewrite argsort_perm, elem_of_seq. lia.
Qed.

Lemma take_positions_in_range {A} (d : A) (l : list A) order :
  Forall (fun i => (i < length l)%nat) order ->
  take_positions l order = (fun i => default d (l !! i)) <$> order.
Proof.
  induction 1 as [|i order Hi _ IH]; [reflexivity|].
  unfold take_positions in *. cbn [omap list_omap fmap list_fmap].
  destruct (lookup_lt_is_Some_2 l i Hi) as [x Hx]. rewrite Hx. cbn.
  now rewrite IH.
Qed.

Lemma lookup_all_positions {A} (d : A) (l : list A) :
  (fun i => default d (l !! i)) <$> seq 0 (length l) = l.
Proof.
  apply list_eq. intros i. rewrite list_lookup_fmap.
  destruct (l !! i) as [x|] eqn:Hx.
  - rewrite lookup_seq_lt by (eapply lookup_lt_Some; exact Hx).
    cbn. now rewrite Hx.
  - rewrite lookup_seq_ge; [reflexivity|]. now apply lookup_ge_None.
Qed.

Lemma sorted_fmap {A} (key : A -> Z) (l : list A) :
  Sorted (fun a b => key a <= key b) l -> Sorted Z.le (key <$> l).
Proof.
  induction 1 as [|a l Hs IH Hhd]; [constructor|].
  rewrite fmap_cons. constructor; [exact IH|].
  destruct Hhd as [|b l Hab]; [constructor|]. rewrite fmap_cons. now constructor.
Qed.

(** [sort_index] puts the labels in order and loses none. *)
Lemma sort_index_index (d : DataFrame) :
  Sorted Z.le (index (sort_index d)) /\ index (sort_index d) ≡ₚ index d.
Proof.
  unfold sort_index. cbn [index].
  rewrite (take_positions_in_range 0).
  2:{ apply Forall_forall. intros i. apply argsort_in_range. }
  split.
  - apply (sorted_fmap (fun i => default 0 (index d !! i))), argsort_sorted.
  - rewrite argsort_perm. now rewrite lookup_all_positions.
Qed.

(** [df.loc[t] = row] adds the label [t] when it is missing, and no other. *)
Lemma loc_setitem_index (d : DataFrame) (t : timestamp) (row : Series) (x : timestamp) :
  x ∈ index (loc_setitem d t row) <-> x ∈ index d \/ x = t.
Proof.
  unfold loc_setitem. destruct (bool_decide (t ∈ index d)) eqn:E; cbn [index].
  - apply bool_decide_eq_true in E. split; [auto|]. intros [Hx| ->]; assumption.
  - rewrite elem_of_app, list_elem_of_singleton. reflexivity.
Qed.

End SortIndexFacts.

Section EntryAndExit.

Import Frames Overlay.

Implicit Types (s : store) (d : DataFrame) (range : SpatioTemporalRange).

(** The row inserted at the entry and the one at the exit: the row found by
    the pad lookup, with the boundary point as its geometry. *)
Local Abbreviation boundary_row d i pt := (<["geometry" := VGeom pt]> (iloc d i)).

(** The table before sorting: both boundary rows set. *)
Local Abbreviation with_boundaries d range i0 i_n :=
  (loc_setitem (loc_setitem d (t_0 range) (boundary_row d i0 (pt_0 range)))
     (t_n range) (boundary_row d i_n (pt_n range))).

Lemma write_read_last s d x :
  (<[length s := x]> (s ++ [d])) !! length s = Some x.
Proof. apply list_lookup_insert_eq. rewrite length_app. cbn. lia. Qed.

Lemma write_last s d x : <[length s := x]> (s ++ [d]) = s ++ [x].
Proof.
  rewrite insert_app_r_alt by lia. now rewrite Nat.sub_diag.
Qed.

(** What [create_entry_and_exit_points] computes, step by step. *)
Lemma create_entry_and_exit_points_eval (traj : Trajectory) range s d i0 i_n :
  s !! df traj = Some d ->
  get_loc_pad (index d) (t_0 range) = Ok i0 ->
  get_loc_pad (index d) (t_n range) = Ok i_n ->
  create_entry_and_exit_points traj (RSpatioTemporal range) s
  = (Ok (S (length s)),
     s ++ [with_boundaries d range i0 i_n;
           sort_index (with_boundaries d range i0 i_n)]).
Proof.
  intros Hd H0 Hn. unfold create_entry_and_exit_points.
  rewrite bind_unfold, (read_Some _ _ _ Hd).
  rewrite bind_unfold. unfold lift at 1. rewrite H0.
  rewrite bind_unfold. unfold lift at 1. rewrite Hn.
  rewrite bind_unfold. unfold copy. rewrite bind_unfold, (read_Some _ _ _ Hd).
  unfold alloc at 1.
  rewrite bind_unfold.
  erewrite read_Some by (rewrite lookup_app_r by lia; now rewrite Nat.sub_diag).
  rewrite bind_unfold. unfold write at 1.
  rewrite bind_unfold. erewrite read_Some by apply write_read_last.
  rewrite bind_unfold. unfold write at 1. rewrite list_insert_insert_eq.
  rewrite bind_unfold. erewrite read_Some by apply write_read_last.
  unfold alloc. rewrite write_last, length_app. cbn [length].
  rewrite <- app_assoc. cbn [app].
  now replace (length s + 1)%nat with (S (length s)) by lia.
Qed.

Lemma create_entry_and_exit_points_inv (traj : Trajectory) range s s' (l : loc) :
  create_entry_and_exit_points traj (RSpatioTemporal range) s = (Ok l, s') ->
  exists d i0 i_n,
    s !! df traj = Some d
    /\ get_loc_pad (index d) (t_0 range) = Ok i0
    /\ get_loc_pad (index d) (t_n range) = Ok i_n.
Proof.
  unfold create_entry_and_exit_points. intros Hrun.
  apply bind_Ok_inv in Hrun as (d & s1 & Hread & Hrun).
  apply read_Ok_inv in Hread as [-> Hd].
  apply bind_Ok_inv in Hrun as (i0 & s1 & Hi0 & Hrun).
  unfold lift in Hi0. injection Hi0 as Hi0 <-.
  apply bind_Ok_inv in Hrun as (i_n & s1 & Hin & _).
  unfold lift in Hin. injection Hin as Hin _.
  eauto 10.
Qed.

(** X17: the table [create_entry_and_exit_points] returns is a new one; its
    index is in increasing order and holds the labels of the trajectory's
    table together with the two boundary times [t_0] and [t_n], and no
    other. *)
Theorem entry_and_exit_table_index (traj : Trajectory) range s s' (l : loc) :
  create_entry_and_exit_points traj (RSpatioTemporal range) s = (Ok l, s') ->
  exists d d',
    s !! df traj = Some d
    /\ s !! l = None
    /\ s' !! l = Some d'
    /\ Sorted Z.le (index d')
    /\ forall t, t ∈ index d' <-> t ∈ index d \/ t = t_0 range \/ t = t_n range.
Proof.
  intros Hrun.
  destruct (create_entry_and_exit_points_inv _ _ _ _ _ Hrun)
    as (d & i0 & i_n & Hd & H0 & Hn).
  rewrite (create_entry_and_exit_points_eval _ _ _ _ _ _ Hd H0 Hn) in Hrun.
  injection Hrun as <- <-.
  exists d, (sort_index (with_boundaries d range i0 i_n)).
  split; [exact Hd|]. split; [apply lookup_ge_None; lia|].
  split.
  { rewrite lookup_app_r by lia.
    now replace (S (length s) - length s)%nat with 1%nat by lia. }
  destruct (sort_index_index (with_boundaries d range i0 i_n)) as [Hsorted Hperm].
  split; [exact Hsorted|].
  intros t. rewrite Hperm, !loc_setitem_index. tauto.
Qed.

(** X18: [create_entry_and_exit_points] raises [TypeError] on a range that
    is no [SpatioTemporalRange], and [KeyError] when the range starts before
    every sample of the trajectory (the pad lookup finds no row); in both
    cases the store is left as it was. *)
Theorem entry_and_exit_errors (traj : Trajectory) s :
  (forall r, create_entry_and_exit_points traj (RTemporal r) s = (Raise TypeError, s))
  /\ create_entry_and_exit_points traj RNone s = (Raise TypeError, s)
  /\ (forall range d,
        s !! df traj = Some d ->
        Forall (fun t => t_0 range < t) (index d) ->
        create_entry_and_exit_points traj (RSpatioTemporal range) s
        = (Raise KeyError, s)).
Proof.
  split; [reflexivity|]. split; [reflexivity|].
  intros range d Hd Hbefore. unfold create_entry_and_exit_points.
  rewrite bind_unfold, (read_Some _ _ _ Hd).
  rewrite bind_unfold. unfold lift at 1, get_loc_pad.
  assert (filter (fun x => x <= t_0 range) (index d) = []) as ->; [|reflexivity].
  induction Hbefore as [|t idx Ht _ IH]; [reflexivity|].
  rewrite filter_cons_False by lia. exact IH.
Qed.

(** X22: [create_entry_and_exit_points] works on copies: when it returns,
    the store is the store it was given followed by two new tables, the
    copy it filled in and the sorted table it returns; no table that existed
    is changed, the trajectory's included. *)
Theorem entry_and_exit_allocates_only (traj : Trajectory) (range : Range)
  (s s' : store) (l : loc) :
  create_entry_and_exit_points traj range s = (Ok l, s') ->
  exists temp_df d',
    s' = s ++ [temp_df; d']
    /\ l = S (length s)
    /\ forall l0, (l0 < length s)%nat -> s' !! l0 = s !! l0.
Proof.
  intros Hrun. destruct range as [r|range|]; try discriminate.
  destruct (create_entry_and_exit_points_inv _ _ _ _ _ Hrun)
    as (d & i0 & i_n & Hd & H0 & Hn).
  rewrite (create_entry_and_exit_points_eval _ _ _ _ _ _ Hd H0 Hn) in Hrun.
  injection Hrun as <- <-.
  eexists _, _. split; [reflexivity|]. split; [reflexivity|].
  intros l0 Hl0. now rewrite lookup_app_l.
Qed.

End EntryAndExit.

Section TableCells.

Import Frames Overlay OverlayReference.

Implicit Types (d : DataFrame) (row : Series) (c : string) (col : list value).

Lemma loc_setitem_columns d (t : timestamp) row c :
  columns (loc_setitem d t row) !! c
  = (fun col =>
       if bool_decide (t ∈ index d)
       then zip_with (fun x v => if Z.eqb x t then default VNaN (row !! c) else v)
              (index d) col
       else col ++ [default VNaN (row !! c)]) <$> columns d !! c.
Proof.
  unfold loc_setitem. destruct (bool_decide (t ∈ index d)); cbn [columns];
    rewrite map_lookup_imap; now destruct (columns d !! c).
Qed.

Lemma loc_setitem_ok d (t : timestamp) row :
  table_ok d -> table_ok (loc_setitem d t row).
Proof.
  intros Hok c col' Hc. rewrite loc_setitem_columns in Hc.
  destruct (columns d !! c) as [col|] eqn:Hcol; [|discriminate].
  injection Hc as <-. specialize (Hok c col Hcol).
  unfold loc_setitem. destruct (bool_decide (t ∈ index d)); cbn [index].
  - rewrite length_zip_with, Hok. apply Nat.min_id.
  - rewrite !length_app, Hok. reflexivity.
Qed.

(** The rows labelled [t] take the cell of [row]. *)
Lemma loc_setitem_cell_set d (t : timestamp) row c col v (i : nat) :
  table_ok d -> columns d !! c = Some col -> row !! c = Some v ->
  index (loc_setitem d t row) !! i = Some t ->
  exists col', columns (loc_setitem d t row) !! c = Some col' /\ col' !! i = Some v.
Proof.
  intros Hok Hcol Hrow Hi. specialize (Hok c col Hcol).
  rewrite loc_setitem_columns, Hcol, Hrow. cbn [fmap option_fmap option_map default].
  eexists. split; [reflexivity|].
  unfold loc_setitem in Hi.
  destruct (bool_decide (t ∈ index d)) eqn:E; cbn [index] in Hi;
    unfold timestamp in *.
  - destruct (lookup_lt_is_Some_2 col i) as [x Hx].
    { rewrite Hok. eapply lookup_lt_Some. exact Hi. }
    rewrite lookup_zip_with, Hi, Hx. cbn. now rewrite Z.eqb_refl.
  - apply bool_decide_eq_false in E.
    destruct (decide (i < length (index d : list Z))%nat) as [Hlt|Hge].
    + rewrite lookup_app_l in Hi by exact Hlt.
      exfalso. apply E. eapply list_elem_of_lookup_2. exact Hi.
    + assert (i = length col) as ->.
      { apply lookup_lt_Some in Hi. rewrite length_app in Hi. cbn in Hi. lia. }
      rewrite lookup_app_r by lia. now rewrite Nat.sub_diag.
Qed.

(** The rows with another label keep their cells. *)
Lemma loc_setitem_cell_kept d (t x : timestamp) row c col (i : nat) :
  table_ok d -> columns d !! c = Some col -> x <> t ->
  index (loc_setitem d t row) !! i = Some x ->
  index d !! i = Some x
  /\ exists col', columns (loc_setitem d t row) !! c = Some col'
                  /\ col' !! i = col !! i.
Proof.
  intros Hok Hcol Hne Hi. specialize (Hok c col Hcol).
  rewrite loc_setitem_columns, Hcol. cbn [fmap option_fmap option_map].
  unfold loc_setitem in Hi.
  destruct (bool_decide (t ∈ index d)) eqn:E; cbn [index] in Hi;
    unfold timestamp in *.
  - split; [exact Hi|]. eexists. split; [reflexivity|].
    destruct (lookup_lt_is_Some_2 col i) as [y Hy].
    { rewrite Hok. eapply lookup_lt_Some. exact Hi. }
    rewrite lookup_zip_with, Hi, Hy. cbn.
    destruct (Z.eqb_spec x t); [contradiction | reflexivity].
  - assert (i < length (index d : list Z))%nat as Hlt.
    { destruct (decide (i < length (index d : list Z))%nat) as [Hlt|Hge];
        [exact Hlt|].
      pose proof (lookup_lt_Some _ _ _ Hi) as Hi'.
      rewrite length_app in Hi'. cbn in Hi'.
      rewrite lookup_app_r in Hi by lia.
      replace (i - length (index d : list Z))%nat with 0%nat in Hi by lia.
      cbn in Hi. congruence. }
    rewrite lookup_app_l in Hi by exact Hlt.
    split; [exact Hi|]. eexists. split; [reflexivity|].
    rewrite lookup_app_l by lia. reflexivity.
Qed.

(** [sort_index] moves whole rows. *)
Lemma sort_index_cell d c col (j : nat) (x : timestamp) :
  table_ok d -> columns d !! c = Some col ->
  index (sort_index d) !! j = Some x ->
  exists i col',
    index d !! i = Some x
    /\ columns (sort_index d) !! c = Some col'
    /\ col' !! j = col !! i.
Proof.
  intros Hok Hcol Hj. specialize (Hok c col Hcol).
  unfold sort_index in *. cbn [index columns] in *. unfold timestamp in *.
  assert (Forall (fun i => (i < length (index d : list Z))%nat) (argsort (index d))) as Hr.
  { apply Forall_forall. intros i. apply argsort_in_range. }
  rewrite (take_positions_in_range 0 _ _ Hr) in Hj.
  rewrite list_lookup_fmap in Hj.
  destruct (argsort (index d) !! j) as [i|] eqn:Hi; [|discriminate].
  cbn in Hj. injection Hj as Hj.
  assert (i < length (index d : list Z))%nat as Hlt.
  { rewrite Forall_forall in Hr. apply Hr. eapply list_elem_of_lookup_2. exact Hi. }
  destruct (lookup_lt_is_Some_2 (index d) i Hlt) as [y Hy].
  unfold timestamp in *. rewrite Hy in Hj. cbn in Hj. subst y.
  exists i. eexists. split; [exact Hy|].
  rewrite lookup_fmap, Hcol. cbn. split; [reflexivity|].
  rewrite (take_positions_in_range VNaN).
  2:{ rewrite Hok. exact Hr. }
  rewrite list_lookup_fmap, Hi. cbn.
  destruct (lookup_lt_is_Some_2 col i) as [v Hv]; [lia|]. now rewrite Hv.
Qed.

Lemma loc_setitem_column d (t : timestamp) row c col :
  columns d !! c = Some col ->
  exists col', columns (loc_setitem d t row) !! c = Some col'.
Proof.
  intros Hcol. rewrite loc_setitem_columns, Hcol. cbn. eauto.
Qed.

Lemma sort_index_column d c col :
  columns d !! c = Some col ->
  exists col', columns (sort_index d) !! c = Some col'.
Proof.
  intros Hcol. unfold sort_index. cbn [columns].
  rewrite lookup_fmap, Hcol. cbn. eauto.
Qed.

(** X19: in the table returned by [create_entry_and_exit_points], every row
    labelled [t_n] has the exit point [pt_n] as its geometry; unless
    [t_0 = t_n], every row labelled [t_0] has the entry point [pt_0]; and a
    row with any other label keeps the geometry it has in the trajectory's
    table. *)
Theorem entry_and_exit_geometry (traj : Trajectory) range s s' (l : loc) d col :
  create_entry_and_exit_points traj (RSpatioTemporal range) s = (Ok l, s') ->
  s !! df traj = Some d ->
  table_ok d ->
  columns d !! "geometry" = Some col ->
  exists d' col',
    s' !! l = Some d'
    /\ columns d' !! "geometry" = Some col'
    /\ (forall j, index d' !! j = Some (t_n range) ->
                  col' !! j = Some (VGeom (pt_n range)))
    /\ (t_0 range <> t_n range ->
        forall j, index d' !! j = Some (t_0 range) ->
                  col' !! j = Some (VGeom (pt_0 range)))
    /\ (forall j x, index d' !! j = Some x ->
                    x <> t_0 range -> x <> t_n range ->
                    exists i, index d !! i = Some x /\ col' !! j = col !! i).
Proof.
  intros Hrun Hd Hok Hcol.
  destruct (create_entry_and_exit_points_inv _ _ _ _ _ Hrun)
    as (d_ & i0 & i_n & Hd_ & H0 & Hn).
  assert (d_ = d) as -> by congruence. clear Hd_.
  rewrite (create_entry_and_exit_points_eval _ _ _ _ _ _ Hd H0 Hn) in Hrun.
  injection Hrun as <- <-.
  set (row0 := <["geometry" := VGeom (pt_0 range)]> (iloc d i0)).
  set (rown := <["geometry" := VGeom (pt_n range)]> (iloc d i_n)).
  set (d1 := loc_setitem d (t_0 range) row0).
  set (d2 := loc_setitem d1 (t_n range) rown).
  assert (row0 !! "geometry" = Some (VGeom (pt_0 range))) as Hrow0
    by apply lookup_insert_eq.
  assert (rown !! "geometry" = Some (VGeom (pt_n range))) as Hrown
    by apply lookup_insert_eq.
  pose proof (loc_setitem_ok d (t_0 range) row0 Hok) as Hok1. fold d1 in Hok1.
  pose proof (loc_setitem_ok d1 (t_n range) rown Hok1) as Hok2. fold d2 in Hok2.
  destruct (loc_setitem_column d (t_0 range) row0 _ _ Hcol) as [col1 Hcol1].
  fold d1 in Hcol1.
  destruct (loc_setitem_column d1 (t_n range) rown _ _ Hcol1) as [col2 Hcol2].
  fold d2 in Hcol2.
  destruct (sort_index_column d2 _ _ Hcol2) as [col' Hcol'].
  exists (sort_index d2), col'.
  split.
  { rewrite lookup_app_r by lia.
    now replace (S (length s) - length s)%nat with 1%nat by lia. }
  split; [exact Hcol'|].
  split; [|split].
  - intros j Hj.
    destruct (sort_index_cell d2 _ _ j _ Hok2 Hcol2 Hj) as (i & c' & Hi & Hc' & Hcell').
    destruct (loc_setitem_cell_set d1 (t_n range) rown _ _ _ i Hok1 Hcol1 Hrown Hi)
      as (c2 & Hc2 & Hcell).
    fold d2 in Hc2. congruence.
  - intros Hne j Hj.
    destruct (sort_index_cell d2 _ _ j _ Hok2 Hcol2 Hj) as (i & c' & Hi & Hc' & Hcell').
    destruct (loc_setitem_cell_kept d1 (t_n range) (t_0 range) rown _ _ i
                Hok1 Hcol1 Hne Hi) as (Hi1 & c2 & Hc2 & Hcell2).
    destruct (loc_setitem_cell_set d (t_0 range) row0 _ _ _ i Hok Hcol Hrow0 Hi1)
      as (c1 & Hc1 & Hcell1).
    fold d1 in Hc1. fold d2 in Hc2. congruence.
  - intros j x Hj Hx0 Hxn.
    destruct (sort_index_cell d2 _ _ j _ Hok2 Hcol2 Hj) as (i & c' & Hi & Hc' & Hcell').
    destruct (loc_setitem_cell_kept d1 (t_n range) x rown _ _ i
                Hok1 Hcol1 Hxn Hi) as (Hi1 & c2 & Hc2 & Hcell2).
    destruct (loc_setitem_cell_kept d (t_0 range) x row0 _ _ i
                Hok Hcol Hx0 Hi1) as (Hi0 & c1 & Hc1 & Hcell1).
    fold d1 in Hc1. fold d2 in Hc2. exists i. split; [exact Hi0|]. congruence.
Qed.

End TableCells.

Section EntryAndExitExamples.

Import Frames Overlay OverlayReference WestEastOverlay OverlaySamples.

Lemma sample_table_ok : table_ok sample_table.
Proof.
  intros c col Hc. unfold sample_table in Hc. cbn [columns] in Hc.
  apply lookup_singleton_Some in Hc as [_ <-]. reflexivity.
Qed.

Lemma intersection_rejects_malformed_feature_witness :
  _get_geometry_and_properties_from_feature (H := collaborators)
    (Dict (Some sample_band) None) = Raise TypeError
  /\ intersection (H := collaborators) sample_traj (Dict (Some sample_band) None)
       false sample_store
     = (Raise TypeError, sample_store).
Proof.
  apply (intersection_rejects_malformed_feature (H := collaborators)).
  right. right. left. exists (Some sample_band). reflexivity.
Defined.

Lemma entry_and_exit_table_index_witness :
  exists d d',
    sample_store !! df sample_traj = Some d
    /\ sample_store !! 2%nat = None
    /\ snd (create_entry_and_exit_points sample_traj (RSpatioTemporal sample_range)
              sample_store) !! 2%nat = Some d'
    /\ Sorted Z.le (index d')
    /\ forall t, t ∈ index d'
                 <-> t ∈ index d \/ t = t_0 sample_range \/ t = t_n sample_range.
Proof.
  apply (entry_and_exit_table_index sample_traj sample_range sample_store).
  vm_compute. reflexivity.
Defined.

Lemma entry_and_exit_allocates_only_witness :
  exists temp_df d',
    snd (create_entry_and_exit_points sample_traj (RSpatioTemporal sample_range)
           sample_store) = sample_store ++ [temp_df; d']
    /\ 2%nat = S (length sample_store)
    /\ forall l0, (l0 < length sample_store)%nat ->
                  snd (create_entry_and_exit_points sample_traj
                         (RSpatioTemporal sample_range) sample_store) !! l0
                  = sample_store !! l0.
Proof.
  apply (entry_and_exit_allocates_only sample_traj (RSpatioTemporal sample_range)
           sample_store).
  vm_compute. reflexivity.
Defined.

Lemma entry_and_exit_geometry_witness :
  exists d' col',
    snd (create_entry_and_exit_points sample_traj (RSpatioTemporal sample_range)
           sample_store) !! 2%nat = Some d'
    /\ columns d' !! "geometry" = Some col'
    /\ (forall j, index d' !! j = Some (t_n sample_range) ->
                  col' !! j = Some (VGeom (pt_n sample_range)))
    /\ (t_0 sample_range <> t_n sample_range ->
        forall j, index d' !! j = Some (t_0 sample_range) ->
                  col' !! j = Some (VGeom (pt_0 sample_range)))
    /\ (forall j x, index d' !! j = Some x ->
                    x <> t_0 sample_range -> x <> t_n sample_range ->
                    exists i, index sample_table !! i = Some x
                              /\ col' !! j
                                 = [VGeom (0%Q, 0%Q); VGeom (3%Q, 0%Q);
                                    VGeom (4%Q, 0%Q); VGeom (10%Q, 0%Q)] !! i).
Proof.
  apply (entry_and_exit_geometry sample_traj sample_range sample_store _ 2%nat
           sample_table).
  - vm_compute. reflexivity.
  - reflexivity.
  - exact sample_table_ok.
  - reflexivity.
Defined.

End EntryAndExitExamples.

Section LineBasedOrdered.

Import Frames Overlay Dissolve Interpolation OverlayReference.

Context `{Collaborators}.

Local Abbreviation row_of polygon :=
  (fun m : Line =>
     {| row_spatial_intersection := line_intersection (line_geometry m) polygon;
        row_prev_t := line_prev_t m;
        row_t := line_t m;
        row_line := line_geometry m |}).




End LineBasedOrdered.

Section LineBasedOrderedExamples.

Import Frames Overlay Dissolve OverlayReference WestEastOverlay.


End LineBasedOrderedExamples.

Section CandidateLines.

Import Frames Overlay.

Context `{Collaborators}.

Local Abbreviation by_label := (fun a b : Line => line_t a <= line_t b).

Lemma insert_line_perm (r : Line) (l : list Line) : insert_line r l ≡ₚ r :: l.
Proof.
  induction l as [|r' l IH]; [reflexivity|]. cbn [insert_line].
  destruct (line_t r <=? line_t r'); [reflexivity|].
  rewrite IH. apply Permutation_swap.
Qed.

Lemma insert_line_HdRel (r x : Line) (l : list Line) :
  line_t x <= line_t r -> HdRel by_label x l -> HdRel by_label x (insert_line r l).
Proof.
  intros Hx Hl. destruct l as [|r' l]; cbn [insert_line].
  - now constructor.
  - apply HdRel_inv in Hl. destruct (line_t r <=? line_t r'); now constructor.
Qed.

Lemma insert_line_sorted (r : Line) (l : list Line) :
  Sorted by_label l -> Sorted by_label (insert_line r l).
Proof.
  induction 1 as [|r' l Hs IH Hhd]; cbn [insert_line].
  - repeat constructor.
  - destruct (Z.leb_spec (line_t r) (line_t r')).
    + constructor; [now constructor | now constructor].
    + constructor; [exact IH|]. apply insert_line_HdRel; [lia | exact Hhd].
Qed.

Lemma sort_lines_perm (l : list Line) : sort_lines l ≡ₚ l.
Proof.
  induction l as [|r l IH]; [reflexivity|].
  cbn [sort_lines foldr]. rewrite insert_line_perm. now constructor.
Qed.

Lemma sort_lines_sorted (l : list Line) : Sorted by_label (sort_lines l).
Proof.
  induction l as [|r l IH]; [constructor|].
  cbn [sort_lines foldr]. now apply insert_line_sorted.
Qed.

(** X21: with a spatial index, [_get_potentially_intersecting_lines] gives
    back the lines at the positions the index reports, each as often as it
    is reported, in the order of their time labels whatever the order of
    the report; a position outside the table of lines raises [IndexError];
    without an index, all the lines come back as they are. *)
Theorem candidate_lines_in_time_order (traj : Trajectory) (polygon : Polygon)
  (line_df : list Line) (s s' : store) :
  _to_line_df traj s = (Ok line_df, s') ->
  (sindex_query line_df polygon = None ->
   _get_potentially_intersecting_lines traj polygon s = (Ok line_df, s'))
  /\ (forall positions,
        sindex_query line_df polygon = Some positions ->
        (Forall (fun i => (i < length line_df)%nat) positions ->
         exists lines selected,
           _get_potentially_intersecting_lines traj polygon s = (Ok lines, s')
           /\ Forall2 (fun i m => line_df !! i = Some m) positions selected
           /\ lines ≡ₚ selected
           /\ Sorted (fun a b => line_t a <= line_t b) lines)
        /\ (Exists (fun i => (length line_df <= i)%nat) positions ->
            _get_potentially_intersecting_lines traj polygon s
            = (Raise IndexError, s'))).
Proof.
  intros Hdf. unfold _get_potentially_intersecting_lines.
  rewrite bind_unfold, Hdf. split.
  { now intros ->. }
  intros positions ->. split.
  - intros Hin.
    destruct (mapM (fun i => line_df !! i) positions) as [selected|] eqn:E.
    + exists (sort_lines selected), selected.
      split; [reflexivity|]. split; [now apply mapM_Some|].
      split; [apply sort_lines_perm | apply sort_lines_sorted].
    + apply mapM_None in E. apply Exists_exists in E as (i & Hi & Hnone).
      rewrite Forall_forall in Hin. specialize (Hin i Hi).
      apply lookup_ge_None in Hnone. lia.
  - intros Hout.
    assert (mapM (fun i => line_df !! i) positions = None) as ->; [|reflexivity].
    apply mapM_None. eapply Exists_impl; [exact Hout|].
    cbn. intros i Hi. now apply lookup_ge_None.
Qed.

End CandidateLines.

Section CandidateLinesExamples.

Import Frames Overlay WestEastOverlay OverlaySamples.

Lemma candidate_lines_in_time_order_witness :
  let line_df :=
    [mkLine 0 (timedelta_seconds 3) [(0%Q, 0%Q); (3%Q, 0%Q)];
     mkLine (timedelta_seconds 3) (timedelta_seconds 4) [(3%Q, 0%Q); (4%Q, 0%Q)];
     mkLine (timedelta_seconds 4) (timedelta_seconds 10) [(4%Q, 0%Q); (10%Q, 0%Q)]] in
  exists lines selected,
    _get_potentially_intersecting_lines (H := indexed_collaborators)
      sample_traj sample_band sample_store = (Ok lines, sample_store)
    /\ Forall2 (fun i m => line_df !! i = Some m) [2; 1; 0]%nat selected
    /\ lines ≡ₚ selected
    /\ Sorted (fun a b => line_t a <= line_t b) lines.
Proof.
  intros line_df.
  refine (proj1
            (proj2 (candidate_lines_in_time_order (H := indexed_collaborators)
                      sample_traj sample_band line_df sample_store sample_store _)
               [2; 1; 0]%nat _) _).
  - vm_compute. reflexivity.
  - vm_compute. reflexivity.
  - repeat constructor.
Defined.

End CandidateLinesExamples.
